(** * Mario: the gameplay orchestration layer of [a3_files/app.py]

    A shallow embedding of the entity factories, the collision handlers, the
    camera, the input handlers and the tick / death / reload life cycle of
    [MarioApp], together with the properties stated about them.

    Conventions.
    - Python [int]s are [Z]; numbers that come from true division ([/]) or
      from the physics engine (positions, velocities, the camera offset) are
      exact rationals [Q]; equality on them is [==].
    - Python dictionaries are [gmap]s with string keys.
    - A method of [MarioApp] is a function on the record [MarioApp] (the
      attributes of [self]); a method that returns a value and mutates [self]
      lives in the state monad [M]; an exception is [None]. *)

From stdpp Require Import gmap strings list.
From Stdlib Require Import ZArith QArith Lia Lqa.

Close Scope Q_scope.
Close Scope Z_scope.
Open Scope string_scope.

(** ** Module-level constants *)

Definition BLOCK_SIZE : Z := 2 ^ 4.

Definition BLOCKS : gmap string string :=
  <["#" := "brick"]> (<["%" := "brick_base"]> (<["?" := "mystery_empty"]>
  (<["$" := "mystery_coin"]> (<["^" := "cube"]> ∅)))).

Definition ITEMS : gmap string string := <["C" := "coin"]> ∅.

Definition MOBS : gmap string string := <["&" := "cloud"]> ∅.

(** ** Game objects

    The classes of [game/] and [player.py] are collaborators of [app.py];
    what [app.py] relies on is recorded here. *)

(** The identity of a Python object. *)
Definition ref := nat.

(** An object: its identity and the data of its class. *)
Record Obj (A : Type) : Type := mkObj { oid : ref; data : A }.
Arguments mkObj {A} _ _.
Arguments oid {A} _.
Arguments data {A} _.

(** [Block(block_id)] and [MysteryBlock(drop=..., drop_range=...)]; an
    argument left out of the call is [None]. *)
Inductive BlockData : Type :=
| Block (block_id : string)
| MysteryBlock (drop : option string) (drop_range : option (Z * Z)).

(** [Coin()] and [DroppedItem(item_id)]. *)
Inductive ItemData : Type :=
| Coin
| DroppedItem (item_id : string).

(** [CloudMob()], [Fireball()] and [Mob(mob_id, size=...)]. *)
Inductive MobData : Type :=
| CloudMob
| Fireball
| Mob (mob_id : string) (size : Z * Z).

(** [Entity()], the generic thing. *)
Inductive EntityData : Type := Entity.

(** Modelled from the spec: the [Player] class of [player.py] ("holds current
    health, maximum health, and velocity", "position is owned by the physics
    service", "Player health ∈ [0, max_health]").  [rest] stands for the
    attributes [app.py] never reads (name, score, ...). *)
Record Player : Type := mkPlayer {
  health : Z;
  max_health : Z;
  velocity : Q * Q;
  position : Q * Q;
  rest : list Z
}.

(** Modelled from the spec: the accessors of [Player]. *)
Definition get_health (p : Player) : Z := health p.
Definition get_max_health (p : Player) : Z := max_health p.
Definition get_position (p : Player) : Q * Q := position p.

(** Modelled from the spec: [Player.set_velocity] overwrites the velocity
    ("velocity changes only via input handlers"). *)
Definition set_velocity (v : Q * Q) (p : Player) : Player :=
  {| health := health p; max_health := max_health p; velocity := v;
     position := position p; rest := rest p |}.

(** Modelled from the spec: the physics service places the player's body. *)
Definition set_position (xy : Q * Q) (p : Player) : Player :=
  {| health := health p; max_health := max_health p; velocity := velocity p;
     position := xy; rest := rest p |}.

(** Modelled from the spec: [Player.change_health], the explicit call through
    which health changes; it adds [change] and keeps the result within
    [0, max_health] ("Player health ∈ [0, max_health]"), lower bound first. *)
Definition change_health (change : Z) (p : Player) : Player :=
  let h := (health p + change)%Z in
  let h := if (h <? 0)%Z then 0%Z else h in
  let h := if (max_health p <? h)%Z then max_health p else h in
  {| health := h; max_health := max_health p; velocity := velocity p;
     position := position p; rest := rest p |}.

(** Modelled from the spec: [Player(max_health=n)], at full health. *)
Definition Player_new (n : Z) : Player :=
  {| health := n; max_health := n; velocity := (0, 0)%Q;
     position := (0, 0)%Q; rest := [] |}.

(** ** The world *)

(** The collision handlers of [MarioApp], by name, as the registration table
    of the world refers to them. *)
Inductive Handler : Type :=
| handle_player_collide_item
| handle_player_collide_block
| handle_player_separate_block
| handle_player_collide_mob
| handle_mob_collide_block
| handle_mob_collide_mob
| handle_mob_collide_item.

(** Modelled from the spec: a row of the collision-handler registration table
    ("[register_collision_rule(category_a, category_b, on_begin?,
    on_separate?)]"). *)
Record Rule : Type := mkRule {
  category_a : string;
  category_b : string;
  on_begin : option Handler;
  on_separate : option Handler
}.

(** Modelled from the spec: the [World] class of [game/world.py] ("holds all
    entities, exposes add/remove per category", "hosts the collision-handler
    registration table").  Entities are kept per category, in insertion
    order, each with the position it was added at; [fresh] is the next unused
    object identity. *)
Record World : Type := mkWorld {
  blocks : list (Obj BlockData * (Q * Q));
  items : list (Obj ItemData * (Q * Q));
  mobs : list (Obj MobData * (Q * Q));
  things : list (Obj EntityData * (Q * Q) * (Z * Z));
  has_player : bool;
  rules : list Rule;
  pixel_size : Z * Z;
  fresh : ref
}.

(** Modelled from the spec: an empty world of the given size in pixels. *)
Definition World_new (size : Z * Z) : World :=
  mkWorld [] [] [] [] false [] size 0.

(** Modelled from the spec: "[pixel_size() -> (width, height)]". *)
Definition get_pixel_size (w : World) : Z * Z := pixel_size w.

(** Creating an object draws the next identity. *)
Definition new {A : Type} (d : A) (w : World) : Obj A * World :=
  (mkObj (fresh w) d,
   mkWorld (blocks w) (items w) (mobs w) (things w) (has_player w) (rules w)
           (pixel_size w) (S (fresh w))).

Definition at_ (x y : Z) : Q * Q := (inject_Z x, inject_Z y).

(** Modelled from the spec: "[add_entity(entity, category, x, y, size?)]", one
    operation per category; the entity goes to the end of its category. *)
Definition add_block (b : Obj BlockData) (x y : Z) (w : World) : World :=
  mkWorld (blocks w ++ [(b, at_ x y)]) (items w) (mobs w) (things w)
          (has_player w) (rules w) (pixel_size w) (fresh w).

Definition add_item (i : Obj ItemData) (x y : Z) (w : World) : World :=
  mkWorld (blocks w) (items w ++ [(i, at_ x y)]) (mobs w) (things w)
          (has_player w) (rules w) (pixel_size w) (fresh w).

Definition add_mob (m : Obj MobData) (x y : Z) (w : World) : World :=
  mkWorld (blocks w) (items w) (mobs w ++ [(m, at_ x y)]) (things w)
          (has_player w) (rules w) (pixel_size w) (fresh w).

Definition add_thing (e : Obj EntityData) (x y : Z) (size : Z * Z) (w : World)
  : World :=
  mkWorld (blocks w) (items w) (mobs w) (things w ++ [(e, at_ x y, size)])
          (has_player w) (rules w) (pixel_size w) (fresh w).

(** Modelled from the spec: [add_player] puts the player's body at the given
    point. *)
Definition add_player (p : Player) (x y : Z) (w : World) : World * Player :=
  (mkWorld (blocks w) (items w) (mobs w) (things w) true (rules w)
           (pixel_size w) (fresh w),
   set_position (at_ x y) p).

Definition is_not {A B : Type} (o : Obj A) (e : Obj A * B) : bool :=
  negb (Nat.eqb (oid (fst e)) (oid o)).

(** Modelled from the spec: "[remove_entity(entity)]", one operation per
    category; "removal operations are idempotent — removing an
    already-removed entity is a no-op". *)
Definition remove_block (b : Obj BlockData) (w : World) : World :=
  mkWorld (List.filter (is_not b) (blocks w)) (items w) (mobs w) (things w)
          (has_player w) (rules w) (pixel_size w) (fresh w).

Definition remove_item (i : Obj ItemData) (w : World) : World :=
  mkWorld (blocks w) (List.filter (is_not i) (items w)) (mobs w) (things w)
          (has_player w) (rules w) (pixel_size w) (fresh w).

Definition remove_mob (m : Obj MobData) (w : World) : World :=
  mkWorld (blocks w) (items w) (List.filter (is_not m) (mobs w)) (things w)
          (has_player w) (rules w) (pixel_size w) (fresh w).

(** Modelled from the spec: registration of a collision rule. *)
Definition add_collision_handler (a b : string)
  (begin separate : option Handler) (w : World) : World :=
  mkWorld (blocks w) (items w) (mobs w) (things w) (has_player w)
          (rules w ++ [mkRule a b begin separate]) (pixel_size w) (fresh w).

(** An object is in the world when an entry of its category carries its
    identity. *)
Definition present {A B : Type} (o : Obj A) (l : list (Obj A * B)) : bool :=
  existsb (fun e => Nat.eqb (oid (fst e)) (oid o)) l.

(** Modelled from the spec: "[all_entities() -> sequence]", here the
    identities of everything the world holds. *)
Definition get_all_things (w : World) : list ref :=
  map (fun e => oid (fst e)) (blocks w) ++ map (fun e => oid (fst e)) (items w)
  ++ map (fun e => oid (fst e)) (mobs w)
  ++ map (fun e => oid (fst (fst e))) (things w).

(** ** Entity factories *)

Definition create_block (world : World) (block_id : string) (x y : Z)
  : option World :=
  match BLOCKS !! block_id with
  | None => None
  | Some block_id =>
      let '(block, world) :=
        if String.eqb block_id "mystery_empty" then
          new (MysteryBlock None None) world
        else if String.eqb block_id "mystery_coin" then
          new (MysteryBlock (Some "coin") (Some (3, 6)%Z)) world
        else
          new (Block block_id) world in
      Some (add_block block (x * BLOCK_SIZE) (y * BLOCK_SIZE) world)
  end.

Definition create_item (world : World) (item_id : string) (x y : Z)
  : option World :=
  match ITEMS !! item_id with
  | None => None
  | Some item_id =>
      let '(item, world) :=
        if String.eqb item_id "coin" then new Coin world
        else new (DroppedItem item_id) world in
      Some (add_item item (x * BLOCK_SIZE) (y * BLOCK_SIZE) world)
  end.

Definition create_mob (world : World) (mob_id : string) (x y : Z)
  : option World :=
  match MOBS !! mob_id with
  | None => None
  | Some mob_id =>
      let '(mob, world) :=
        if String.eqb mob_id "cloud" then new CloudMob world
        else if String.eqb mob_id "fireball" then new Fireball world
        else new (Mob mob_id (1, 1)%Z) world in
      Some (add_mob mob (x * BLOCK_SIZE) (y * BLOCK_SIZE) world)
  end.

Definition create_unknown (world : World) (entity_id : string) (x y : Z)
  : option World :=
  let '(e, world) := new Entity world in
  Some (add_thing e (x * BLOCK_SIZE) (y * BLOCK_SIZE)
                  (BLOCK_SIZE, BLOCK_SIZE) world).

(** ** The entity registry *)

(** A factory, such as [create_block]: [None] when it raises. *)
Definition Factory : Type := World -> string -> Z -> Z -> option World.

(** Modelled from the spec: the [WorldBuilder] class of [level.py], a table
    from symbols to factories and a fallback factory. *)
Record WorldBuilder : Type := mkWorldBuilder {
  block_size : Z;
  gravity : Z * Z;
  fallback : Factory;
  builders : gmap string Factory
}.

(** Modelled from the spec: [WorldBuilder(block_size, gravity=...,
    fallback=...)], with nothing registered. *)
Definition WorldBuilder_new (size : Z) (g : Z * Z) (fb : Factory)
  : WorldBuilder :=
  mkWorldBuilder size g fb ∅.

(** Modelled from the spec: "[register(symbol_set, factory)] associates each
    symbol in a set with a factory function". *)
Definition register_builders (ids : gset string) (f : Factory)
  (b : WorldBuilder) : WorldBuilder :=
  mkWorldBuilder (block_size b) (gravity b) (fallback b)
                 (gset_to_gmap f ids ∪ builders b).

(** Modelled from the spec: "the registry is cleared after each build so
    stale registrations never leak across level loads". *)
Definition clear (b : WorldBuilder) : WorldBuilder :=
  mkWorldBuilder (block_size b) (gravity b) (fallback b) ∅.

(** Modelled from the spec: "[on_placement(symbol, grid_x, grid_y)]",
    which "looks up the factory for [symbol] and invokes it with the placement
    coordinates, falling back to a generic unknown-entity factory if no match
    exists".  The factories of [app.py] are handed the grid coordinates and
    scale them themselves. *)
Definition on_placement (b : WorldBuilder) (symbol : string) (grid_x grid_y : Z)
  (w : World) : option World :=
  default (fallback b) (builders b !! symbol) w symbol grid_x grid_y.

(** Modelled from the spec: a level as the loader hands it over, the size of
    the world in pixels and the "ordered sequence of [(symbol, grid_x,
    grid_y)]". *)
Record Level : Type := mkLevel {
  level_pixel_size : Z * Z;
  placements : list (string * Z * Z)
}.

(** Modelled from the spec: the feed is consumed in order; a factory that
    raises aborts the load. *)
Fixpoint place_all (b : WorldBuilder) (feed : list (string * Z * Z))
  (w : World) : option World :=
  match feed with
  | [] => Some w
  | (symbol, x, y) :: feed =>
      match on_placement b symbol x y w with
      | None => None
      | Some w => place_all b feed w
      end
  end.

(** ** The application state: the attributes of [self] *)

Record MarioApp : Type := mkApp {
  _builder : WorldBuilder;
  _player : Player;
  _world : World;
  _level_holder : string;
  _death_action : bool;
  (** the offset of [self._view] *)
  view_offset : Q * Q;
  (** what [self._view] currently shows *)
  canvas : list ref;
  (** [self._master.winfo_width()] *)
  winfo_width : Z;
  (** the "You dead" windows opened so far *)
  death_popups : nat
}.

Definition with_player (p : Player) (s : MarioApp) : MarioApp :=
  mkApp (_builder s) p (_world s) (_level_holder s) (_death_action s)
        (view_offset s) (canvas s) (winfo_width s) (death_popups s).

Definition with_world (w : World) (s : MarioApp) : MarioApp :=
  mkApp (_builder s) (_player s) w (_level_holder s) (_death_action s)
        (view_offset s) (canvas s) (winfo_width s) (death_popups s).

Definition with_builder (b : WorldBuilder) (s : MarioApp) : MarioApp :=
  mkApp b (_player s) (_world s) (_level_holder s) (_death_action s)
        (view_offset s) (canvas s) (winfo_width s) (death_popups s).

Definition with_level_holder (l : string) (s : MarioApp) : MarioApp :=
  mkApp (_builder s) (_player s) (_world s) l (_death_action s)
        (view_offset s) (canvas s) (winfo_width s) (death_popups s).

Definition with_death_action (d : bool) (s : MarioApp) : MarioApp :=
  mkApp (_builder s) (_player s) (_world s) (_level_holder s) d
        (view_offset s) (canvas s) (winfo_width s) (death_popups s).

Definition set_offset (o : Q * Q) (s : MarioApp) : MarioApp :=
  mkApp (_builder s) (_player s) (_world s) (_level_holder s) (_death_action s)
        o (canvas s) (winfo_width s) (death_popups s).

Definition with_canvas (c : list ref) (s : MarioApp) : MarioApp :=
  mkApp (_builder s) (_player s) (_world s) (_level_holder s) (_death_action s)
        (view_offset s) c (winfo_width s) (death_popups s).

Definition with_winfo_width (width : Z) (s : MarioApp) : MarioApp :=
  mkApp (_builder s) (_player s) (_world s) (_level_holder s) (_death_action s)
        (view_offset s) (canvas s) width (death_popups s).

Definition with_death_popups (n : nat) (s : MarioApp) : MarioApp :=
  mkApp (_builder s) (_player s) (_world s) (_level_holder s) (_death_action s)
        (view_offset s) (canvas s) (winfo_width s) n.

(** Methods that return a value and mutate [self]. *)
Definition M (A : Type) : Type := MarioApp -> A * MarioApp.

#[global] Instance M_ret : MRet M := fun A a s => (a, s).
#[global] Instance M_bind : MBind M :=
  fun A B f m s => let '(a, s) := m s in f a s.

Definition modify (f : MarioApp -> MarioApp) : M unit := fun s => (tt, f s).
Definition skip : M unit := mret tt.

(** ** The camera *)

Definition scroll (s : MarioApp) : MarioApp :=
  let x_position := fst (get_position (_player s)) in
  let half_screen := (inject_Z (winfo_width s) / 2)%Q in
  let world_size :=
    (inject_Z (fst (get_pixel_size (_world s))) - half_screen)%Q in
  if Qle_bool x_position half_screen then
    set_offset (0, 0)%Q s
  else if Qle_bool half_screen x_position && Qle_bool x_position world_size then
    set_offset (half_screen - x_position, 0)%Q s
  else if Qle_bool world_size x_position then
    set_offset (half_screen - world_size, 0)%Q s
  else s.

(** ** Input handlers *)

Definition _move (dx dy : Q) (s : MarioApp) : MarioApp :=
  with_player (set_velocity (dx, dy) (_player s)) s.

Definition _jump (s : MarioApp) : MarioApp :=
  with_player (set_velocity (0, -150)%Q (_player s)) s.

Definition _duck : M bool := mret true.

Inductive Key : Type :=
| Key_Up | Key_space | Key_w | Key_W
| Key_a | Key_Left | Key_A
| Key_s | Key_Down | Key_S
| Key_d | Key_Right | Key_D.

(** [bind]: the handler each key event runs; tkinter drops what it returns. *)
Definition bind (k : Key) (s : MarioApp) : MarioApp :=
  match k with
  | Key_Up | Key_space | Key_w | Key_W => _jump s
  | Key_a => _move (-50) 0 s
  | Key_Left | Key_A => _move (-500) 0 s
  | Key_s | Key_Down | Key_S => snd (_duck s)
  | Key_d => _move 50 0 s
  | Key_Right | Key_D => _move 500 0 s
  end.

(** Two states of the application that agree on everything except, possibly,
    the player's velocity. *)
Definition same_but_velocity (s s' : MarioApp) : Prop :=
  _world s' = _world s /\ _builder s' = _builder s /\
  _level_holder s' = _level_holder s /\ _death_action s' = _death_action s /\
  view_offset s' = view_offset s /\ canvas s' = canvas s /\
  winfo_width s' = winfo_width s /\ death_popups s' = death_popups s /\
  health (_player s') = health (_player s) /\
  max_health (_player s') = max_health (_player s) /\
  position (_player s') = position (_player s) /\
  rest (_player s') = rest (_player s).

(** Two states of the application that agree on everything except,
    possibly, the world and the player. *)
Definition same_but_world_and_player (s s' : MarioApp) : Prop :=
  _builder s' = _builder s /\ _level_holder s' = _level_holder s /\
  _death_action s' = _death_action s /\ view_offset s' = view_offset s /\
  canvas s' = canvas s /\ winfo_width s' = winfo_width s /\
  death_popups s' = death_popups s.

(** ** Redrawing *)

Definition redraw (s : MarioApp) : MarioApp :=
  with_canvas (get_all_things (_world s)) (with_canvas [] s).

(** ** The builder [__init__] sets up *)

Definition initial_builder : WorldBuilder :=
  let world_builder := WorldBuilder_new BLOCK_SIZE (0, 300)%Z create_unknown in
  let world_builder := register_builders (dom BLOCKS) create_block world_builder in
  let world_builder := register_builders (dom ITEMS) create_item world_builder in
  let world_builder := register_builders (dom MOBS) create_mob world_builder in
  world_builder.

(** A symbol is unregistered when none of the three tables has it. *)
Definition unregistered (symbol : string) : Prop :=
  BLOCKS !! symbol = None /\ ITEMS !! symbol = None /\ MOBS !! symbol = None.

(** What the fallback factory does to a world. *)
Definition one_generic_more (x y : Z) (w w' : World) : Prop :=
  things w' =
    (things w ++
      [(mkObj (fresh w) Entity,
        (inject_Z (x * BLOCK_SIZE), inject_Z (y * BLOCK_SIZE)),
        (BLOCK_SIZE, BLOCK_SIZE))])%list /\
  blocks w' = blocks w /\ items w' = items w /\ mobs w' = mobs w.

(** ** The renderer

    [MarioViewRenderer] overrides the drawer of the player and of the mystery
    block. *)

(** What a drawer reads of a [pymunk.Shape]: the velocity of its body and the
    centre of its bounding box. *)
Record Shape : Type := mkShape {
  body_velocity : Q * Q;
  bb_center : Q * Q
}.

(** The image [view.create_image(x, y, image=..., tags=...)] puts on the
    canvas.  A drawer answers the list of the images it has created. *)
Record CanvasImage : Type := mkCanvasImage {
  image_x : Q;
  image_y : Q;
  image : string;
  tags : string
}.

(** An image is known by the name it is loaded under. *)
Definition load_image (name : string) : string := name.

Definition _draw_player (shape : Shape) (offset : Q * Q) : list CanvasImage :=
  let image :=
    if Qle_bool 0 (fst (body_velocity shape)) then load_image "mario_right"
    else load_image "mario_left" in
  [mkCanvasImage (fst (bb_center shape) + fst offset)%Q (snd (bb_center shape))
                 image "player"].

(** [is_active] is what [instance.is_active()] answers. *)
Definition _draw_mystery_block (is_active : bool) (shape : Shape)
  (offset : Q * Q) : list CanvasImage :=
  let image :=
    if is_active then load_image "coin" else load_image "coin_used" in
  [mkCanvasImage (fst (bb_center shape) + fst offset)%Q (snd (bb_center shape))
                 image "block"].

(** ** Runs of key presses *)

Definition is_duck (k : Key) : bool :=
  match k with
  | Key_s | Key_Down | Key_S => true
  | _ => false
  end.

(** The handlers of a sequence of key events, run in order. *)
Definition press (keys : list Key) (s : MarioApp) : MarioApp :=
  fold_left (fun s k => bind k s) keys s.

(** The last key of a sequence that is not bound to [_duck], after [k0]. *)
Definition last_effective (k0 : option Key) (keys : list Key) : option Key :=
  fold_left (fun acc k => if is_duck k then acc else Some k) keys k0.

(** ** Counting and naming what a world holds *)

Definition entity_count (w : World) : nat :=
  length (blocks w) + length (items w) + length (mobs w) + length (things w).

(** What every factory does to a world when it does not raise: one entity
    more, one identity consumed, the rest of the world as it was. *)
Definition one_entity_more (w w' : World) : Prop :=
  entity_count w' = S (entity_count w) /\ fresh w' = S (fresh w) /\
  get_all_things w' ≡ₚ fresh w :: get_all_things w /\
  rules w' = rules w /\ has_player w' = has_player w /\
  pixel_size w' = pixel_size w.

(** The builder of [__init__], before or after [clear]. *)
Definition known_builder (b : WorldBuilder) : Prop :=
  b = initial_builder \/ b = clear initial_builder.

(** The table [_setup_collision_handlers] registers. *)
Definition collision_rules : list Rule :=
  [mkRule "player" "item" (Some handle_player_collide_item) None;
   mkRule "player" "block" (Some handle_player_collide_block)
          (Some handle_player_separate_block);
   mkRule "player" "mob" (Some handle_player_collide_mob) None;
   mkRule "mob" "block" (Some handle_mob_collide_block) None;
   mkRule "mob" "mob" (Some handle_mob_collide_mob) None;
   mkRule "mob" "item" (Some handle_mob_collide_item) None].

(** The identities of a world are in order when they are pairwise distinct
    and all below the next unused one. *)
Definition identities_in_order (w : World) : Prop :=
  NoDup (get_all_things w) /\ Forall (fun r => r < fresh w) (get_all_things w).

(** ** Sample data: a player at a given abscissa in an empty world *)

Definition sample_player (x : Q) (h : Z) : Player :=
  mkPlayer h 5 (0, 0)%Q (x, 16)%Q [].

Definition sample_app (x : Q) (width world_width : Z) (h : Z) (dead : bool)
  : MarioApp :=
  mkApp initial_builder (sample_player x h) (World_new (world_width, 240)%Z)
        "level1.txt" dead (0, 0)%Q [] width 0.

(** A small world: a brick, a base brick, a coin, a fireball and a cloud. *)

Definition sample_brick : Obj BlockData := mkObj 0 (Block "brick").
Definition sample_base : Obj BlockData := mkObj 1 (Block "brick_base").
Definition sample_coin : Obj ItemData := mkObj 2 Coin.
Definition sample_fireball : Obj MobData := mkObj 3 Fireball.
Definition sample_cloud : Obj MobData := mkObj 4 CloudMob.
Definition sample_other_cloud : Obj MobData := mkObj 5 CloudMob.

Definition sample_world : World :=
  mkWorld [(sample_brick, at_ 0 224); (sample_base, at_ 16 224)]
          [(sample_coin, at_ 32 208)]
          [(sample_fireball, at_ 48 208); (sample_cloud, at_ 64 80);
           (sample_other_cloud, at_ 96 80)]
          [] true [] (3200, 240)%Z 6.

Definition sample_game (h : Z) (dead : bool) : MarioApp :=
  mkApp initial_builder (sample_player 100 h) sample_world "level1.txt" dead
        (0, 0)%Q [] 800 0.

(** A pickup effect: the item's identity is noted among the player's other
    attributes. *)
Definition sample_collect (i : Obj ItemData) (p : Player) : Player :=
  mkPlayer (health p) (max_health p) (velocity p) (position p)
           (Z.of_nat (oid i) :: rest p).

(** One level file. *)
Definition sample_files (name : string) : option Level :=
  if String.eqb name "level1.txt" then
    Some (mkLevel (3200, 240)%Z
            [("#", 0, 14); ("?", 3, 10); ("&", 5, 5); ("C", 6, 6);
             ("x", 7, 7)]%Z)
  else None.

(** Two level files. *)
Definition sample_two_files (name : string) : option Level :=
  if String.eqb name "level1.txt" then
    Some (mkLevel (3200, 240)%Z [("#", 0, 14); ("&", 5, 5)]%Z)
  else if String.eqb name "level2.txt" then
    Some (mkLevel (1600, 240)%Z [("%", 0, 14); ("C", 2, 2); ("$", 4, 4)]%Z)
  else None.

(** The player at health 0 in the small world, as a physics step may leave
    them. *)
Definition sample_dead : World * Player := (sample_world, sample_player 100 0).

Section Collaborators.

Set Default Proof Using "Type".

(** What the classes outside [app.py] contribute: the identifier a
    [MysteryBlock] reports, the pickup effect of an item, the on-hit behaviour
    of blocks and mobs, the contact data of the physics engine, and the level
    files. *)
Variable MysteryBlock_id : string.
Variable collect : Obj ItemData -> Player -> Player.
Variable Arbiter : Type.
Variable Block_on_hit :
  Obj BlockData -> Arbiter -> World * Player -> World * Player.
Variable Mob_on_hit :
  Obj MobData -> Arbiter -> World * Player -> World * Player.
Variable read_level : string -> option Level.

Definition Block_get_id (b : Obj BlockData) : string :=
  match data b with
  | Block block_id => block_id
  | MysteryBlock _ _ => MysteryBlock_id
  end.

(** The identifiers of [CloudMob] and [Fireball] are the keys [app.py] uses for
    them in [MOBS] and [MOB_IMAGES]. *)
Definition Mob_get_id (m : Obj MobData) : string :=
  match data m with
  | CloudMob => "cloud"
  | Fireball => "fireball"
  | Mob mob_id _ => mob_id
  end.

(** Modelled from the spec: [load_world] of [level.py]; a missing level
    aborts the load. *)
Definition load_world (b : WorldBuilder) (name : string) : option World :=
  match read_level name with
  | None => None
  | Some level => place_all b (placements level) (World_new (level_pixel_size level))
  end.

(** ** Collision handlers

    The [data] argument, which no handler reads, is left out. *)

Definition _handle_mob_collide_block (mob : Obj MobData)
  (block : Obj BlockData) (arbiter : Arbiter) : M bool :=
  (if String.eqb (Mob_get_id mob) "fireball" then
     (if String.eqb (Block_get_id block) "brick" then
        modify (fun s => with_world (remove_block block (_world s)) s)
      else skip) ;;
     modify (fun s => with_world (remove_mob mob (_world s)) s)
   else skip) ;;
  mret true.

Definition _handle_mob_collide_item (mob : Obj MobData)
  (block : Obj ItemData) (arbiter : Arbiter) : M bool :=
  mret false.

Definition _handle_mob_collide_mob (mob1 mob2 : Obj MobData)
  (arbiter : Arbiter) : M bool :=
  (if String.eqb (Mob_get_id mob1) "fireball"
      || String.eqb (Mob_get_id mob2) "fireball" then
     modify (fun s => with_world (remove_mob mob1 (_world s)) s) ;;
     modify (fun s => with_world (remove_mob mob2 (_world s)) s)
   else skip) ;;
  mret false.

(** [player] is the participant the world reports; the handler works on
    [self._player]. *)
Definition _handle_player_collide_item (player : Player)
  (dropped_item : Obj ItemData) (arbiter : Arbiter) : M bool :=
  modify (fun s => with_player (collect dropped_item (_player s)) s) ;;
  modify (fun s => with_world (remove_item dropped_item (_world s)) s) ;;
  mret false.

Definition _handle_player_collide_block (player : Player)
  (block : Obj BlockData) (arbiter : Arbiter) : M bool :=
  modify (fun s =>
    let '(w, p) := Block_on_hit block arbiter (_world s, _player s) in
    with_player p (with_world w s)) ;;
  mret true.

Definition _handle_player_collide_mob (player : Player)
  (mob : Obj MobData) (arbiter : Arbiter) : M bool :=
  modify (fun s =>
    let '(w, p) := Mob_on_hit mob arbiter (_world s, _player s) in
    with_player p (with_world w s)) ;;
  mret true.

Definition _handle_player_separate_block (player : Player)
  (block : Obj BlockData) (arbiter : Arbiter) : M bool :=
  mret true.

Definition _setup_collision_handlers (s : MarioApp) : MarioApp :=
  let w := _world s in
  let w := add_collision_handler "player" "item"
             (Some handle_player_collide_item) None w in
  let w := add_collision_handler "player" "block"
             (Some handle_player_collide_block)
             (Some handle_player_separate_block) w in
  let w := add_collision_handler "player" "mob"
             (Some handle_player_collide_mob) None w in
  let w := add_collision_handler "mob" "block"
             (Some handle_mob_collide_block) None w in
  let w := add_collision_handler "mob" "mob"
             (Some handle_mob_collide_mob) None w in
  let w := add_collision_handler "mob" "item"
             (Some handle_mob_collide_item) None w in
  with_world w s.

(** ** Loading a level *)

Definition reset_world (new_level : string) (s : MarioApp) : option MarioApp :=
  match load_world (_builder s) new_level with
  | None => None
  | Some w =>
      let s := with_world w s in
      let '(w, p) := add_player (_player s) BLOCK_SIZE BLOCK_SIZE (_world s) in
      let s := with_player p (with_world w s) in
      let s := with_builder (clear (_builder s)) s in
      let s := _setup_collision_handlers s in
      let s := with_level_holder new_level s in
      let s := with_death_action false s in
      Some (with_player
              (change_health (get_max_health (_player s)) (_player s)) s)
  end.

(** ** The tick and the death prompt *)

Definition on_death (s : MarioApp) : MarioApp :=
  let s := with_death_action true s in
  with_death_popups (S (death_popups s)) s.

(** [self._world.step(data)] is the physics service: [after] is the world and
    the player as it leaves them.  [self._master.after(10, self.step)] asks
    for the next tick, which is the next [Tick] of a run. *)
Definition step (after : World * Player) (s : MarioApp) : MarioApp :=
  let s := with_player (snd after) (with_world (fst after) s) in
  let s := scroll s in
  let s := redraw s in
  if (get_health (_player s) =? 0)%Z then
    if negb (_death_action s) then on_death s
    else s
  else s.

(** What happens to a running application: a tick, a key press, a level
    chosen from the menu or from the death prompt, a reset of the current
    level, a resize of the window.  A load that fails leaves [self] as it
    was. *)
Inductive Event : Type :=
| Tick (after : World * Player)
| KeyDown (k : Key)
| Load (level : string)
| Reset
| Resize (width : Z).

Definition handle (e : Event) (s : MarioApp) : MarioApp :=
  match e with
  | Tick after => step after s
  | KeyDown k => bind k s
  | Load level => default s (reset_world level s)
  | Reset => default s (reset_world (_level_holder s) s)
  | Resize width => with_winfo_width width s
  end.

Definition run (events : list Event) (s : MarioApp) : MarioApp :=
  fold_left (fun s e => handle e s) events s.

(** Proofs about code that does not consult a collaborator forget it. *)
Ltac standalone :=
  clear MysteryBlock_id collect Block_on_hit Mob_on_hit read_level Arbiter.

Definition is_load (e : Event) : bool :=
  match e with
  | Load _ | Reset => true
  | _ => false
  end.

Definition is_tick (e : Event) : bool :=
  match e with
  | Tick _ => true
  | _ => false
  end.

(** An event during which the player stays at health 0 and no level is
    loaded: a tick that ends at health 0, a key press or a resize. *)
Definition stays_dead (e : Event) : bool :=
  match e with
  | Tick after => (get_health (snd after) =? 0)%Z
  | Load _ | Reset => false
  | KeyDown _ | Resize _ => true
  end.

(** ** The constructor *)

(** [MarioApp(master)].  [width] is what [winfo_width()] answers once the
    window is laid out and [after] is what the physics step of the first tick
    leaves.  The attributes that [__init__] has not assigned yet when it calls
    [reset_world] and [step] stand with placeholder values, all of which these
    two overwrite; the renderer, the view, the key bindings and the menu hold
    no state of their own here. *)
Definition __init__ (width : Z) (after : World * Player) : option MarioApp :=
  let self :=
    mkApp initial_builder (Player_new 5) (World_new (0, 0)%Z) "" false
          (0, 0)%Q [] width 0 in
  match reset_world "level1.txt" self with
  | None => None
  | Some self =>
      let self := with_level_holder "level1.txt" self in
      let self := step after self in
      Some (with_death_action false self)
  end.

(** The level a run leaves in [_level_holder]: the last one asked for whose
    file exists. *)
Definition level_after (current : string) (e : Event) : string :=
  match e with
  | Load level =>
      match read_level level with
      | Some _ => level
      | None => current
      end
  | _ => current
  end.

(** ** The camera: properties *)

(** Linear arithmetic over [Q] where halves are written [_ / 2]. *)
Ltac halves :=
  unfold Qdiv in *; change (/ 2)%Q with (1 # 2)%Q in *; lra.

Lemma Qle_bool_false (a b : Q) : Qle_bool a b = false -> (b < a)%Q.
Proof.
  intros H. apply Qnot_le_lt. intros Hle.
  apply Qle_bool_iff in Hle. congruence.
Qed.

(** [scroll] always takes one of its three branches. *)
Lemma scroll_cases (s : MarioApp) :
  let x := fst (get_position (_player s)) in
  let half := (inject_Z (winfo_width s) / 2)%Q in
  let far := (inject_Z (fst (get_pixel_size (_world s))) - half)%Q in
  ((x <= half)%Q /\ scroll s = set_offset (0, 0)%Q s) \/
  ((half < x)%Q /\ (x <= far)%Q /\
     scroll s = set_offset (half - x, 0)%Q s) \/
  ((half < x)%Q /\ (far < x)%Q /\
     scroll s = set_offset (half - far, 0)%Q s).
Proof.
  intros x half far. unfold scroll. fold x half far.
  destruct (Qle_bool x half) eqn:E1.
  - left. split; [now apply Qle_bool_iff | reflexivity].
  - apply Qle_bool_false in E1. right.
    destruct (Qle_bool half x) eqn:E2; cbn [andb].
    + destruct (Qle_bool x far) eqn:E3.
      * left. repeat split; [assumption | now apply Qle_bool_iff].
      * apply Qle_bool_false in E3. right.
        destruct (Qle_bool far x) eqn:E4.
        -- repeat split; assumption.
        -- apply Qle_bool_false in E4. exfalso. lra.
    + apply Qle_bool_false in E2. exfalso. lra.
Qed.

(** C1 (as amended).  The horizontal camera offset is [0] whenever
    [player_x <= viewport_width / 2]; it is [viewport_width / 2 - player_x]
    whenever [viewport_width / 2 <= player_x <= world_width - viewport_width / 2];
    it is [viewport_width / 2 - (world_width - viewport_width / 2)] whenever
    [player_x >= world_width - viewport_width / 2] and, in addition,
    [player_x > viewport_width / 2] (which is always so when the world is at
    least as wide as the viewport, up to the point where both clamps give
    [0]).  With a viewport of 800 and a world of 3200 the offsets at 100, 1000
    and 3100 are 0, -600 and -2400.  The vertical offset is always [0]. *)
Theorem scroll_offset_piecewise (s : MarioApp) :
  let x := fst (get_position (_player s)) in
  let half := (inject_Z (winfo_width s) / 2)%Q in
  let far := (inject_Z (fst (get_pixel_size (_world s))) - half)%Q in
  let offset := view_offset (scroll s) in
  ((x <= half)%Q -> (fst offset == 0)%Q) /\
  ((half <= x)%Q -> (x <= far)%Q -> (fst offset == half - x)%Q) /\
  ((far <= x)%Q -> (half < x)%Q -> (fst offset == half - far)%Q) /\
  ((far <= x)%Q -> (winfo_width s <= fst (get_pixel_size (_world s)))%Z ->
     (fst offset == half - far)%Q) /\
  snd offset = 0%Q /\
  (winfo_width s = 800%Z -> fst (get_pixel_size (_world s)) = 3200%Z ->
     ((x == 100)%Q -> (fst offset == 0)%Q) /\
     ((x == 1000)%Q -> (fst offset == -600)%Q) /\
     ((x == 3100)%Q -> (fst offset == -2400)%Q)).
Proof.
  intros x half far offset.
  assert (Hw : (winfo_width s <= fst (get_pixel_size (_world s)))%Z ->
               (half <= far)%Q).
  { intros Hle. rewrite Zle_Qle in Hle. subst half far. halves. }
  destruct (scroll_cases s) as [[Hx E] | [(Hx & Hf & E) | (Hx & Hf & E)]];
    fold x half far in Hx, E; try fold x half far in Hf;
    subst offset; rewrite E; cbn [view_offset set_offset fst snd].
  all: repeat split; try reflexivity; intros.
  all: try match goal with
         | H : (_ <= _)%Z |- _ => apply Hw in H
         end.
  all: try match goal with
         | H1 : winfo_width _ = _, H2 : fst (get_pixel_size _) = _ |- _ =>
             subst half far; rewrite ?H1, ?H2 in *; unfold inject_Z in *
         end.
  all: halves.
Qed.

(** ** Removal from a category list *)

Lemma present_removed {A B : Type} (o : Obj A) (l : list (Obj A * B)) :
  present o (List.filter (is_not o) l) = false.
Proof.
  unfold present, is_not. induction l as [| e l IH]; [reflexivity |].
  cbn [List.filter]. destruct (Nat.eqb (oid (fst e)) (oid o)) eqn:E; cbn [negb].
  - exact IH.
  - cbn [existsb]. rewrite E. exact IH.
Qed.

Lemma absent_stays_absent {A B : Type} (o : Obj A) (f : Obj A * B -> bool)
  (l : list (Obj A * B)) :
  present o l = false -> present o (List.filter f l) = false.
Proof.
  unfold present. induction l as [| e l IH]; [reflexivity |].
  cbn [existsb List.filter]. intros H. apply orb_false_iff in H as [He Hl].
  destruct (f e); cbn [existsb]; [rewrite He |]; auto.
Qed.

Lemma kept_other {A B : Type} (o : Obj A) (l : list (Obj A * B)) (e : Obj A * B) :
  In e l -> oid (fst e) <> oid o -> In e (List.filter (is_not o) l).
Proof.
  intros Hin Hne. apply filter_In. split; [exact Hin |].
  unfold is_not. now apply negb_true_iff, Nat.eqb_neq.
Qed.

Lemma removed_subset {A B : Type} (o : Obj A) (l : list (Obj A * B)) (e : Obj A * B) :
  In e (List.filter (is_not o) l) -> In e l /\ oid (fst e) <> oid o.
Proof.
  intros Hin. apply filter_In in Hin as [Hin Hb]. split; [exact Hin |].
  unfold is_not in Hb. now apply negb_true_iff, Nat.eqb_neq in Hb.
Qed.

(** ** The collision rules: properties *)

(** Runs a handler on a state. *)
Ltac exec :=
  unfold skip, modify, mbind, M_bind, mret, M_ret;
  cbn [fst snd _world _player _builder _level_holder _death_action view_offset
       canvas winfo_width death_popups with_world with_player
       blocks items mobs things has_player rules pixel_size fresh
       remove_block remove_mob remove_item].

(** C2.  On a mob-block contact the handler always answers [True].  When the
    mob is a fireball the mob is gone from the world afterwards, and a block
    that was in the world is gone exactly when its identifier is ["brick"]
    (so a ["brick_base"] block stays); every other block keeps its place.
    When the mob is not a fireball nothing changes. *)
Theorem mob_collide_block_rule (mob : Obj MobData) (block : Obj BlockData)
  (arbiter : Arbiter) (s : MarioApp) :
  let r := _handle_mob_collide_block mob block arbiter s in
  fst r = true /\
  (Mob_get_id mob = "fireball" ->
     present mob (mobs (_world (snd r))) = false /\
     (present block (blocks (_world s)) = true ->
        (present block (blocks (_world (snd r))) = false <->
         Block_get_id block = "brick")) /\
     (Block_get_id block = "brick_base" ->
        blocks (_world (snd r)) = blocks (_world s)) /\
     (forall e, In e (blocks (_world s)) -> oid (fst e) <> oid block ->
        In e (blocks (_world (snd r))))) /\
  (Mob_get_id mob <> "fireball" -> snd r = s).
Proof.
  unfold _handle_mob_collide_block.
  destruct (String.eqb (Mob_get_id mob) "fireball") eqn:Hm.
  - apply String.eqb_eq in Hm.
    destruct (String.eqb (Block_get_id block) "brick") eqn:Hb; exec.
    + apply String.eqb_eq in Hb.
      split; [reflexivity |]. split; [| congruence].
      intros _. split; [apply present_removed |].
      split; [| split].
      * intros _. split; [intros _; exact Hb | intros _; apply present_removed].
      * rewrite Hb. discriminate.
      * intros e Hin Hne. now apply kept_other.
    + apply String.eqb_neq in Hb.
      split; [reflexivity |]. split; [| congruence].
      intros _. split; [apply present_removed |].
      split; [| split].
      * intros Hin. split; [intros Hout; rewrite Hout in Hin; discriminate | contradiction].
      * reflexivity.
      * intros e Hin _. exact Hin.
  - apply String.eqb_neq in Hm. exec.
    split; [reflexivity |]. split; [contradiction |].
    intros _. now destruct s.
Qed.

(** C3.  On a mob-mob contact the handler always answers [False].  When one of
    the two mobs is a fireball both are gone from the world afterwards and
    every other mob keeps its place; when neither is, nothing changes.  So two
    mobs that were in the world are both gone exactly when at least one of
    them is a fireball. *)
Theorem mob_collide_mob_rule (mob1 mob2 : Obj MobData) (arbiter : Arbiter)
  (s : MarioApp) :
  let r := _handle_mob_collide_mob mob1 mob2 arbiter s in
  let projectile :=
    Mob_get_id mob1 = "fireball" \/ Mob_get_id mob2 = "fireball" in
  fst r = false /\
  (projectile ->
     present mob1 (mobs (_world (snd r))) = false /\
     present mob2 (mobs (_world (snd r))) = false /\
     (forall e, In e (mobs (_world s)) ->
        oid (fst e) <> oid mob1 -> oid (fst e) <> oid mob2 ->
        In e (mobs (_world (snd r))))) /\
  (~ projectile -> snd r = s) /\
  (present mob1 (mobs (_world s)) = true ->
   present mob2 (mobs (_world s)) = true ->
     (present mob1 (mobs (_world (snd r))) = false /\
      present mob2 (mobs (_world (snd r))) = false <-> projectile)).
Proof.
  unfold _handle_mob_collide_mob.
  destruct (String.eqb (Mob_get_id mob1) "fireball"
            || String.eqb (Mob_get_id mob2) "fireball") eqn:Hp; exec.
  - assert (Hp' : Mob_get_id mob1 = "fireball" \/ Mob_get_id mob2 = "fireball").
    { apply orb_true_iff in Hp as [H | H]; apply String.eqb_eq in H; auto. }
    assert (H1 : present mob1 (List.filter (is_not mob2)
                   (List.filter (is_not mob1) (mobs (_world s)))) = false).
    { apply absent_stays_absent, present_removed. }
    assert (H2 : present mob2 (List.filter (is_not mob2)
                   (List.filter (is_not mob1) (mobs (_world s)))) = false).
    { apply present_removed. }
    split; [reflexivity |]. split; [| split].
    + intros _. split; [exact H1 |]. split; [exact H2 |].
      intros e Hin Hn1 Hn2. now apply kept_other; [apply kept_other |].
    + intros Hn. contradiction.
    + intros _ _. split; [intros _; exact Hp' | intros _; split; assumption].
  - assert (Hp' : ~ (Mob_get_id mob1 = "fireball" \/ Mob_get_id mob2 = "fireball")).
    { apply orb_false_iff in Hp as [H1 H2].
      apply String.eqb_neq in H1, H2. intros [H | H]; contradiction. }
    split; [reflexivity |]. split; [| split].
    + intros H. contradiction.
    + intros _. reflexivity.
    + intros Hin1 _. split; [| intros H; contradiction].
      intros [Hout _]. rewrite Hout in Hin1. discriminate.
Qed.

(** C4.  On a player-item contact the handler answers [False]; the player
    afterwards is the player before with the item's pickup effect applied; the
    item is no longer in the world, every other item keeps its place, and
    the blocks, mobs and generic things, the collision rules, the builder, the
    current level, the death flag, the camera offset, the canvas, the window
    and the death prompts are as before. *)
Theorem player_collide_item_rule (player : Player) (dropped_item : Obj ItemData)
  (arbiter : Arbiter) (s : MarioApp) :
  let r := _handle_player_collide_item player dropped_item arbiter s in
  fst r = false /\
  _player (snd r) = collect dropped_item (_player s) /\
  present dropped_item (items (_world (snd r))) = false /\
  (forall e, In e (items (_world (snd r))) <->
             In e (items (_world s)) /\ oid (fst e) <> oid dropped_item) /\
  blocks (_world (snd r)) = blocks (_world s) /\
  mobs (_world (snd r)) = mobs (_world s) /\
  things (_world (snd r)) = things (_world s) /\
  has_player (_world (snd r)) = has_player (_world s) /\
  rules (_world (snd r)) = rules (_world s) /\
  pixel_size (_world (snd r)) = pixel_size (_world s) /\
  fresh (_world (snd r)) = fresh (_world s) /\
  _builder (snd r) = _builder s /\
  _level_holder (snd r) = _level_holder s /\
  _death_action (snd r) = _death_action s /\
  view_offset (snd r) = view_offset s /\
  canvas (snd r) = canvas s /\
  winfo_width (snd r) = winfo_width s /\
  death_popups (snd r) = death_popups s.
Proof.
  unfold _handle_player_collide_item. exec.
  split; [reflexivity |]. split; [reflexivity |].
  split; [apply present_removed |].
  split; [| repeat split].
  intros e. split.
  - apply removed_subset.
  - intros [Hin Hne]. now apply kept_other.
Qed.

(** ** The factories: properties *)

Lemma BLOCKS_registered (symbol block_id : string) :
  BLOCKS !! symbol = Some block_id ->
  (symbol = "#" /\ block_id = "brick") \/
  (symbol = "%" /\ block_id = "brick_base") \/
  (symbol = "?" /\ block_id = "mystery_empty") \/
  (symbol = "$" /\ block_id = "mystery_coin") \/
  (symbol = "^" /\ block_id = "cube").
Proof.
  standalone. unfold BLOCKS. intros H.
  repeat (rewrite lookup_insert in H; case_decide;
          [inversion H; subst; tauto |]).
  rewrite lookup_empty in H. discriminate.
Qed.

(** C5.  [create_block] builds, for ['?'], a mystery block given no drop; for
    ['$'], a mystery block whose drop is ["coin"] with range (3, 6); for every
    other symbol of [BLOCKS], a plain block of the type [BLOCKS] maps it to.
    The new block is appended to the blocks of the world at
    (x * BLOCK_SIZE, y * BLOCK_SIZE), with BLOCK_SIZE = 16, and the items,
    mobs and generic things of the world are untouched. *)
Theorem create_block_mapping (world : World) (x y : Z) :
  let built d r :=
    exists w, r = Some w /\
      blocks w = (blocks world ++
        [(mkObj (fresh world) d,
          (inject_Z (x * BLOCK_SIZE), inject_Z (y * BLOCK_SIZE)))])%list /\
      items w = items world /\ mobs w = mobs world /\
      things w = things world in
  BLOCK_SIZE = 16%Z /\
  built (MysteryBlock None None) (create_block world "?" x y) /\
  built (MysteryBlock (Some "coin") (Some (3, 6)%Z))
        (create_block world "$" x y) /\
  (forall symbol block_id,
     BLOCKS !! symbol = Some block_id -> symbol <> "?" -> symbol <> "$" ->
     built (Block block_id) (create_block world symbol x y)).
Proof.
  intros built. split; [reflexivity |].
  assert (Hq : BLOCKS !! "?" = Some "mystery_empty") by reflexivity.
  assert (Hd : BLOCKS !! "$" = Some "mystery_coin") by reflexivity.
  unfold built, create_block. split; [| split].
  - rewrite Hq. cbn. eexists. repeat split.
  - rewrite Hd. cbn. eexists. repeat split.
  - intros symbol block_id H Hnq Hnd. rewrite H.
    destruct (BLOCKS_registered _ _ H)
      as [[-> ->] | [[-> ->] | [[-> ->] | [[-> ->] | [-> ->]]]]];
      try congruence; cbn; eexists; repeat split.
Qed.

(** ** The registry: properties *)

Lemma initial_builder_unregistered (symbol : string) :
  unregistered symbol -> builders initial_builder !! symbol = None.
Proof.
  intros (Hb & Hi & Hm). unfold initial_builder, register_builders.
  cbn [builders WorldBuilder_new].
  repeat (apply lookup_union_None; split);
    try (apply lookup_gset_to_gmap_None, not_elem_of_dom; assumption).
  apply lookup_empty.
Qed.

Lemma fallback_placement (b : WorldBuilder) (symbol : string) (x y : Z)
  (w : World) :
  fallback b = create_unknown -> builders b !! symbol = None ->
  exists w', on_placement b symbol x y w = Some w' /\ one_generic_more x y w w'.
Proof.
  intros Hf Hb. unfold on_placement. rewrite Hb, Hf. cbn [default].
  eexists. split; [reflexivity |]. repeat split.
Qed.

(** C6.  For a symbol in none of [BLOCKS], [ITEMS] and [MOBS], the placement
    entry point of the builder that [__init__] sets up succeeds and adds
    exactly one generic entity, of size (BLOCK_SIZE, BLOCK_SIZE), at
    (grid_x * BLOCK_SIZE, grid_y * BLOCK_SIZE), leaving blocks, items and mobs
    as they were; the same holds for any builder whose fallback is
    [create_unknown] and that has no factory for the symbol.  A feed of such
    symbols loads without error, one generic entity per placement. *)
Theorem unknown_symbol_falls_back (symbol : string) (grid_x grid_y : Z)
  (w : World) :
  unregistered symbol ->
  (exists w', on_placement initial_builder symbol grid_x grid_y w = Some w' /\
              one_generic_more grid_x grid_y w w') /\
  (forall b, fallback b = create_unknown -> builders b !! symbol = None ->
     exists w', on_placement b symbol grid_x grid_y w = Some w' /\
                one_generic_more grid_x grid_y w w') /\
  (forall feed : list (string * Z * Z),
     Forall (fun p => unregistered (fst (fst p))) feed ->
     exists w', place_all initial_builder feed w = Some w' /\
       length (things w') = length (things w) + length feed /\
       blocks w' = blocks w /\ items w' = items w /\ mobs w' = mobs w).
Proof.
  intros Hu. split; [| split].
  - apply fallback_placement;
      [reflexivity | now apply initial_builder_unregistered].
  - intros b Hf Hb. now apply fallback_placement.
  - intros feed. revert w. induction feed as [| [[sym x] y] feed IH];
      intros w Hall.
    + exists w. cbn. repeat split. lia.
    + apply Forall_cons in Hall as [Hsym Hall]. cbn [fst] in Hsym.
      destruct (fallback_placement initial_builder sym x y w eq_refl
                  (initial_builder_unregistered _ Hsym))
        as (w1 & Hw1 & Ht & Hb & Hi & Hm).
      destruct (IH w1 Hall) as (w2 & Hw2 & Hlen & Hb2 & Hi2 & Hm2).
      exists w2. cbn [place_all]. rewrite Hw1.
      split; [exact Hw2 |].
      rewrite Hlen, Ht, length_app. cbn [length].
      repeat split; try congruence. lia.
Qed.

(** ** The tick: properties *)

Lemma scroll_only_offset (s : MarioApp) :
  exists o, scroll s = set_offset o s.
Proof.
  destruct (scroll_cases s) as [[_ E] | [(_ & _ & E) | (_ & _ & E)]];
    eexists; exact E.
Qed.

(** What a tick leaves in the death flag and the count of death prompts. *)
Lemma step_death (after : World * Player) (s : MarioApp) :
  let fired := (get_health (snd after) =? 0)%Z && negb (_death_action s) in
  death_popups (step after s) =
    (if fired then S (death_popups s) else death_popups s) /\
  _death_action (step after s) =
    (_death_action s || (get_health (snd after) =? 0)%Z).
Proof.
  unfold step.
  destruct (scroll_only_offset
              (with_player (snd after) (with_world (fst after) s))) as [o ->].
  cbn [redraw with_canvas set_offset with_player with_world _player
       _death_action].
  destruct (get_health (snd after) =? 0)%Z;
    destruct (_death_action s) eqn:Ed; cbn; rewrite ?Ed; split; reflexivity.
Qed.

Lemma bind_death (k : Key) (s : MarioApp) :
  death_popups (bind k s) = death_popups s /\
  _death_action (bind k s) = _death_action s.
Proof. destruct k; split; reflexivity. Qed.

(** Once the flag is set, nothing but a load changes the flag or opens
    another prompt. *)
Lemma handle_when_flagged (e : Event) (s : MarioApp) :
  is_load e = false -> _death_action s = true ->
  death_popups (handle e s) = death_popups s /\
  _death_action (handle e s) = true.
Proof.
  intros Hl Hf. destruct e as [after | k | level | | width];
    try discriminate; cbn [handle].
  - destruct (step_death after s) as [Hp Hd]. rewrite Hp, Hd, Hf.
    rewrite andb_false_r. split; reflexivity.
  - destruct (bind_death k s) as [Hp Hd]. rewrite Hp, Hd. auto.
  - cbn. auto.
Qed.

Lemma run_when_flagged (events : list Event) (s : MarioApp) :
  forallb (fun e => negb (is_load e)) events = true ->
  _death_action s = true ->
  death_popups (run events s) = death_popups s /\
  _death_action (run events s) = true.
Proof.
  revert s. induction events as [| e events IH]; intros s Hall Hf.
  - cbn. auto.
  - cbn [forallb] in Hall. apply andb_true_iff in Hall as [He Hall].
    apply negb_true_iff in He.
    destruct (handle_when_flagged e s He Hf) as [Hp Hd].
    destruct (IH (handle e s) Hall Hd) as [Hp' Hd'].
    unfold run in *. cbn [fold_left]. rewrite Hp', Hd'. auto.
Qed.

Lemma stays_dead_no_load (events : list Event) :
  forallb stays_dead events = true ->
  forallb (fun e => negb (is_load e)) events = true.
Proof.
  induction events as [| e events IH]; [reflexivity |].
  cbn [forallb]. intros H. apply andb_true_iff in H as [He H].
  rewrite (IH H), andb_true_r. now destruct e.
Qed.

Lemma run_fires_once (events : list Event) (s : MarioApp) :
  forallb stays_dead events = true ->
  existsb is_tick events = true ->
  _death_action s = false ->
  death_popups (run events s) = S (death_popups s) /\
  _death_action (run events s) = true.
Proof.
  revert s. induction events as [| e events IH]; intros s Hall Hex Hf.
  - discriminate.
  - cbn [forallb] in Hall. apply andb_true_iff in Hall as [He Hall].
    unfold run in *. cbn [fold_left].
    destruct e as [after | k | level | | width]; try discriminate;
      cbn [handle].
    + cbn [stays_dead] in He.
      destruct (step_death after s) as [Hp Hd].
      rewrite He, Hf in Hp, Hd. cbn in Hp, Hd.
      destruct (run_when_flagged events (step after s)
                  (stays_dead_no_load _ Hall) Hd) as [Hp' Hd'].
      unfold run in *. rewrite Hp', Hd', Hp. auto.
    + destruct (bind_death k s) as [Hp Hd].
      cbn [existsb is_tick orb] in Hex.
      destruct (IH (bind k s) Hall Hex) as [Hp' Hd']; [congruence |].
      rewrite Hp', Hd', Hp. auto.
    + cbn [existsb is_tick orb] in Hex.
      exact (IH (with_winfo_width width s) Hall Hex Hf).
Qed.

(** ** Loading a level: properties *)

Lemma change_health_to_max (p : Player) :
  (0 <= health p)%Z ->
  health (change_health (max_health p) p) = max_health p /\
  max_health (change_health (max_health p) p) = max_health p.
Proof.
  intros H. unfold change_health. cbn [health max_health].
  split; [| reflexivity].
  destruct (health p + max_health p <? 0)%Z eqn:E1.
  - apply Z.ltb_lt in E1.
    destruct (max_health p <? 0)%Z eqn:E2; [reflexivity |].
    apply Z.ltb_ge in E2. lia.
  - apply Z.ltb_ge in E1.
    destruct (max_health p <? health p + max_health p)%Z eqn:E2;
      [reflexivity |].
    apply Z.ltb_ge in E2. lia.
Qed.

(** [change_health] keeps the health within its range, so the range is an
    invariant of the player. *)
Lemma change_health_in_range (change : Z) (p : Player) :
  (0 <= max_health p)%Z ->
  (0 <= health (change_health change p) <= max_health p)%Z.
Proof.
  intros Hm. unfold change_health. cbn [health max_health].
  destruct (health p + change <? 0)%Z eqn:E1.
  - destruct (max_health p <? 0)%Z eqn:E2; [apply Z.ltb_lt in E2 |]; lia.
  - apply Z.ltb_ge in E1.
    destruct (max_health p <? health p + change)%Z eqn:E2;
      [| apply Z.ltb_ge in E2]; lia.
Qed.

(** [reset_world] completes exactly when the level loads, and then the flag
    is clear, the level is remembered and the health has been raised by
    [max_health]. *)
Lemma reset_world_completes (new_level : string) (s : MarioApp) :
  (forall w, load_world (_builder s) new_level = Some w ->
     exists s', reset_world new_level s = Some s') /\
  (load_world (_builder s) new_level = None ->
     reset_world new_level s = None) /\
  (forall s', reset_world new_level s = Some s' ->
     _death_action s' = false /\
     _level_holder s' = new_level /\
     death_popups s' = death_popups s /\
     health (_player s') =
       health (change_health (max_health (_player s)) (_player s)) /\
     max_health (_player s') = max_health (_player s)).
Proof.
  unfold reset_world.
  destruct (load_world (_builder s) new_level) as [w |].
  - split; [| split].
    + intros _ _. eexists. reflexivity.
    + discriminate.
    + intros s' H. inversion H. subst s'. clear H. cbn. repeat split.
  - split; [| split]; [discriminate | reflexivity | discriminate].
Qed.

(** X20.  From any state of the application, however it was reached: a tick
    opens the death prompt if and only if the player's health after the
    physics step is 0 and the death flag is not set, and leaves the count of
    prompts alone otherwise; [on_death] sets the flag and opens one prompt.
    So over any run of ticks, key presses and resizes with at least one tick,
    in which every tick ends at health 0, exactly one prompt opens when the
    flag was clear at the start; once the flag is set, no run without a level
    load opens another prompt or clears the flag; and a level load that
    completes clears the flag.  (What [__init__] does to the flag is not part
    of a run.) *)
Theorem death_prompt_once_per_life :
  (forall after s,
     death_popups (step after s) = S (death_popups s) <->
     get_health (snd after) = 0%Z /\ _death_action s = false) /\
  (forall after s,
     ~ (get_health (snd after) = 0%Z /\ _death_action s = false) ->
     death_popups (step after s) = death_popups s /\
     _death_action (step after s) = _death_action s) /\
  (forall s,
     _death_action (on_death s) = true /\
     death_popups (on_death s) = S (death_popups s)) /\
  (forall after s,
     get_health (snd after) = 0%Z -> _death_action (step after s) = true) /\
  (forall events s,
     forallb stays_dead events = true -> existsb is_tick events = true ->
     _death_action s = false ->
     death_popups (run events s) = S (death_popups s)) /\
  (forall events s,
     forallb (fun e => negb (is_load e)) events = true ->
     _death_action s = true ->
     death_popups (run events s) = death_popups s /\
     _death_action (run events s) = true) /\
  (forall new_level s s',
     reset_world new_level s = Some s' -> _death_action s' = false).
Proof.
  clear MysteryBlock_id collect Block_on_hit Mob_on_hit Arbiter.
  split; [| split; [| split; [| split; [| split; [| split]]]]].
  - intros after s. destruct (step_death after s) as [Hp _]. rewrite Hp.
    destruct (get_health (snd after) =? 0)%Z eqn:Eh;
      destruct (_death_action s); cbn [andb negb].
    + split; [lia | intros [_ H]; discriminate].
    + apply Z.eqb_eq in Eh. tauto.
    + split; [lia | intros [_ H]; discriminate].
    + apply Z.eqb_neq in Eh. split; [lia | tauto].
  - intros after s Hn. destruct (step_death after s) as [Hp Hd].
    rewrite Hp, Hd.
    destruct (get_health (snd after) =? 0)%Z eqn:Eh;
      destruct (_death_action s); cbn [andb negb orb]; auto.
    apply Z.eqb_eq in Eh. tauto.
  - intros s. split; reflexivity.
  - intros after s Hh. destruct (step_death after s) as [_ Hd].
    rewrite Hd. apply Z.eqb_eq in Hh. rewrite Hh. apply orb_true_r.
  - intros events s Hall Hex Hf. now apply run_fires_once.
  - intros events s Hall Hf. now apply run_when_flagged.
  - intros new_level s s' H.
    now apply (reset_world_completes new_level s).
Qed.

(** C8.  Whatever the death flag and whatever the health (within its range,
    that is at least 0) before, a [reset_world] that completes leaves the
    player's health equal to [max_health], which is unchanged, and the death
    flag clear, so that the next tick ending at health 0 opens the death
    prompt again; and [reset_world] completes whenever the level loads. *)
Theorem reset_world_restores_health (new_level : string) (s : MarioApp) :
  (0 <= get_health (_player s))%Z ->
  (forall s', reset_world new_level s = Some s' ->
     get_health (_player s') = get_max_health (_player s') /\
     get_max_health (_player s') = get_max_health (_player s) /\
     _death_action s' = false /\
     (forall after, get_health (snd after) = 0%Z ->
        death_popups (step after s') = S (death_popups s') /\
        _death_action (step after s') = true)) /\
  (forall w, load_world (_builder s) new_level = Some w ->
     exists s', reset_world new_level s = Some s').
Proof.
  intros Hh. destruct (reset_world_completes new_level s) as (Hok & _ & Hpost).
  split; [| exact Hok].
  intros s' Hs'. destruct (Hpost s' Hs') as (Hd & _ & _ & Hhealth & Hmax).
  destruct (change_health_to_max (_player s) Hh) as [Hm _].
  unfold get_health, get_max_health in *.
  split; [congruence |]. split; [exact Hmax |]. split; [exact Hd |].
  intros after Ha. destruct (step_death after s') as [Hp Hf].
  apply Z.eqb_eq in Ha. unfold get_health in *.
  rewrite Ha, Hd in Hp, Hf. cbn in Hp, Hf. auto.
Qed.

(** ** The input handlers: properties *)

(** C9.  Every key handler, and [_jump] and [_move] with any arguments, leaves
    the world, the builder, the current level, the death flag, the camera
    offset, the canvas, the window, the death prompts and the player's
    health, maximum health, position and other attributes as they were: only
    the velocity may differ.  The duck handler, bound to three keys, answers
    [True] and changes nothing at all. *)
Theorem input_handlers_touch_only_velocity (s : MarioApp) :
  (forall k, same_but_velocity s (bind k s)) /\
  same_but_velocity s (_jump s) /\
  (forall dx dy, same_but_velocity s (_move dx dy s)) /\
  _duck s = (true, s) /\
  bind Key_s s = s /\ bind Key_Down s = s /\ bind Key_S s = s.
Proof.
  unfold same_but_velocity.
  split; [intros k; destruct k; cbn; repeat split |].
  cbn. repeat split.
Qed.

(** C10.  [_jump] sets the velocity to (0, -150) whatever the state, so also
    whatever the previous velocity and position; [_move dx dy] sets it to
    (dx, dy); the keys bound to a move give (-50, 0), (-500, 0), (50, 0) and
    (500, 0), and those bound to a jump give (0, -150).  Nothing of the old
    velocity survives. *)
Theorem jump_and_move_replace_velocity (s : MarioApp) :
  velocity (_player (_jump s)) = (0, -150)%Q /\
  (forall dx dy, velocity (_player (_move dx dy s)) = (dx, dy)) /\
  velocity (_player (bind Key_Up s)) = (0, -150)%Q /\
  velocity (_player (bind Key_space s)) = (0, -150)%Q /\
  velocity (_player (bind Key_w s)) = (0, -150)%Q /\
  velocity (_player (bind Key_W s)) = (0, -150)%Q /\
  velocity (_player (bind Key_a s)) = (-50, 0)%Q /\
  velocity (_player (bind Key_Left s)) = (-500, 0)%Q /\
  velocity (_player (bind Key_A s)) = (-500, 0)%Q /\
  velocity (_player (bind Key_d s)) = (50, 0)%Q /\
  velocity (_player (bind Key_Right s)) = (500, 0)%Q /\
  velocity (_player (bind Key_D s)) = (500, 0)%Q /\
  (forall v dx dy,
     _move dx dy (with_player (set_velocity v (_player s)) s) = _move dx dy s /\
     _jump (with_player (set_velocity v (_player s)) s) = _jump s).
Proof. repeat split. Qed.

(** ** More on the camera *)

(** Whatever the offset was before, [scroll] leaves the offset of one of its
    three branches. *)
Lemma scroll_forgets_offset (o : Q * Q) (s : MarioApp) :
  scroll (set_offset o s) = scroll s.
Proof.
  destruct (scroll_cases s) as [[Hx E] | [(Hx & Hf & E) | (Hx & Hf & E)]];
  destruct (scroll_cases (set_offset o s))
    as [[Hx' E'] | [(Hx' & Hf' & E') | (Hx' & Hf' & E')]];
  cbn [set_offset _player _world winfo_width] in Hx', E';
  try cbn [set_offset _player _world winfo_width] in Hf';
  rewrite E, E'; try reflexivity; exfalso; lra.
Qed.

(** X1.  The camera keeps the player inside the window: when the player's
    abscissa is within the world, [0 <= x <= world_width], and the window
    width is not negative, the abscissa at which the player is shown,
    [x + offset], lies within [0, viewport_width]; in the middle band it is
    exactly the middle of the window. *)
Theorem scroll_keeps_player_in_window (s : MarioApp) :
  let x := fst (get_position (_player s)) in
  let width := inject_Z (winfo_width s) in
  let world := inject_Z (fst (get_pixel_size (_world s))) in
  let shown := (x + fst (view_offset (scroll s)))%Q in
  (0 <= x)%Q -> (x <= world)%Q -> (0 <= winfo_width s)%Z ->
  (0 <= shown)%Q /\ (shown <= width)%Q /\
  ((width / 2 <= x)%Q -> (x <= world - width / 2)%Q ->
     (shown == width / 2)%Q).
Proof.
  intros x width world shown H0 Hw Hv. subst x width world shown.
  rewrite Zle_Qle in Hv. change (inject_Z 0) with 0%Q in Hv.
  destruct (scroll_cases s) as [[Hx E] | [(Hx & Hf & E) | (Hx & Hf & E)]];
    rewrite E; cbn [view_offset set_offset fst];
    repeat split; intros; halves.
Qed.

(** X2.  When the window is no wider than the world, the camera never shows
    anything outside the world, wherever the player is: the window covers
    [-offset, -offset + viewport_width], which lies within
    [0, world_width]. *)
Theorem scroll_stays_inside_world (s : MarioApp) :
  let width := inject_Z (winfo_width s) in
  let world := inject_Z (fst (get_pixel_size (_world s))) in
  let left := (- fst (view_offset (scroll s)))%Q in
  (winfo_width s <= fst (get_pixel_size (_world s)))%Z ->
  (0 <= left)%Q /\ (left + width <= world)%Q.
Proof.
  intros width world left Hle. subst width world left.
  rewrite Zle_Qle in Hle.
  destruct (scroll_cases s) as [[Hx E] | [(Hx & Hf & E) | (Hx & Hf & E)]];
    rewrite E; cbn [view_offset set_offset fst]; split; halves.
Qed.

(** X3.  In a world at least as wide as the window the camera follows the
    player without ever overtaking it: when the player moves right from [x1]
    to [x2] (same window, same world), the offset does not grow and it
    shrinks by at most [x2 - x1]. *)
Theorem scroll_follows_no_faster (s1 s2 : MarioApp) :
  let x1 := fst (get_position (_player s1)) in
  let x2 := fst (get_position (_player s2)) in
  let o1 := fst (view_offset (scroll s1)) in
  let o2 := fst (view_offset (scroll s2)) in
  winfo_width s1 = winfo_width s2 ->
  fst (get_pixel_size (_world s1)) = fst (get_pixel_size (_world s2)) ->
  (winfo_width s1 <= fst (get_pixel_size (_world s1)))%Z ->
  (x1 <= x2)%Q ->
  (o2 <= o1)%Q /\ (o1 - o2 <= x2 - x1)%Q.
Proof.
  intros x1 x2 o1 o2 Hw Hp Hle Hx. subst x1 x2 o1 o2.
  rewrite Zle_Qle in Hle.
  destruct (scroll_cases s1) as [[H1 E1] | [(H1 & F1 & E1) | (H1 & F1 & E1)]];
  destruct (scroll_cases s2) as [[H2 E2] | [(H2 & F2 & E2) | (H2 & F2 & E2)]];
    rewrite E1, E2; cbn [view_offset set_offset fst];
    rewrite <- ?Hw, <- ?Hp in *; split; halves.
Qed.

(** X4.  The camera has no memory: the offset [scroll] leaves does not depend
    on the offset before, so scrolling twice is scrolling once, and [scroll]
    changes nothing but the offset. *)
Theorem scroll_is_memoryless (s : MarioApp) :
  (forall o, scroll (set_offset o s) = scroll s) /\
  scroll (scroll s) = scroll s /\
  scroll s = set_offset (view_offset (scroll s)) s.
Proof.
  split; [intros o; apply scroll_forgets_offset |].
  destruct (scroll_only_offset s) as [o E].
  split.
  - rewrite E at 1. rewrite scroll_forgets_offset. reflexivity.
  - rewrite E. reflexivity.
Qed.

(** ** More on the factories *)

Lemma ITEMS_registered (symbol item_id : string) :
  ITEMS !! symbol = Some item_id -> symbol = "C" /\ item_id = "coin".
Proof.
  standalone. unfold ITEMS. intros H.
  rewrite lookup_insert in H. case_decide.
  - inversion H. subst. tauto.
  - rewrite lookup_empty in H. discriminate.
Qed.

Lemma MOBS_registered (symbol mob_id : string) :
  MOBS !! symbol = Some mob_id -> symbol = "&" /\ mob_id = "cloud".
Proof.
  standalone. unfold MOBS. intros H.
  rewrite lookup_insert in H. case_decide.
  - inversion H. subst. tauto.
  - rewrite lookup_empty in H. discriminate.
Qed.

Ltac one_more :=
  unfold one_entity_more, entity_count, get_all_things;
  cbn [new add_block add_item add_mob add_thing blocks items mobs things
       fresh rules has_player pixel_size fst snd oid];
  rewrite ?length_app, ?map_app; cbn [length map fst snd oid];
  repeat split; try lia; try solve_Permutation.

Lemma create_block_one_more (w : World) (symbol : string) (x y : Z) (w' : World) :
  create_block w symbol x y = Some w' -> one_entity_more w w'.
Proof.
  standalone. unfold create_block. destruct (BLOCKS !! symbol) as [id |]; [| discriminate].
  destruct (String.eqb id "mystery_empty");
    [| destruct (String.eqb id "mystery_coin")];
    intros H; inversion H; subst w'; clear H; one_more.
Qed.
Lemma create_item_one_more (w : World) (symbol : string) (x y : Z) (w' : World) :
  create_item w symbol x y = Some w' -> one_entity_more w w'.
Proof.
  standalone. unfold create_item.
  destruct (ITEMS !! symbol) as [id |]; [| discriminate].
  destruct (String.eqb id "coin");
    intros H; inversion H; subst w'; clear H; one_more.
Qed.

Lemma create_mob_one_more (w : World) (symbol : string) (x y : Z) (w' : World) :
  create_mob w symbol x y = Some w' -> one_entity_more w w'.
Proof.
  standalone. unfold create_mob.
  destruct (MOBS !! symbol) as [id |]; [| discriminate].
  destruct (String.eqb id "cloud"); [| destruct (String.eqb id "fireball")];
    intros H; inversion H; subst w'; clear H; one_more.
Qed.

Lemma create_unknown_one_more (w : World) (symbol : string) (x y : Z) (w' : World) :
  create_unknown w symbol x y = Some w' -> one_entity_more w w'.
Proof.
  standalone. unfold create_unknown.
  intros H; inversion H; subst w'; clear H; one_more.
Qed.

(** X5.  Each keyed factory raises exactly when the symbol is missing from
    its own table (so a factory handed a symbol of another table raises), and
    [create_unknown] never raises.  A factory that does not raise adds exactly
    one entity, under the next unused identity, and leaves the collision
    rules, the player and the size of the world alone. *)
Theorem factories_raise_exactly (w : World) (symbol : string) (x y : Z) :
  (create_block w symbol x y = None <-> BLOCKS !! symbol = None) /\
  (create_item w symbol x y = None <-> ITEMS !! symbol = None) /\
  (create_mob w symbol x y = None <-> MOBS !! symbol = None) /\
  create_unknown w symbol x y <> None /\
  (forall f w', In f [create_block; create_item; create_mob; create_unknown] ->
     f w symbol x y = Some w' -> one_entity_more w w').
Proof.
  standalone. split; [| split; [| split; [| split]]].
  - unfold create_block. destruct (BLOCKS !! symbol) as [id |].
    + destruct (String.eqb id "mystery_empty");
        [| destruct (String.eqb id "mystery_coin")];
        split; discriminate.
    + split; reflexivity.
  - unfold create_item. destruct (ITEMS !! symbol) as [id |].
    + destruct (String.eqb id "coin"); split; discriminate.
    + split; reflexivity.
  - unfold create_mob. destruct (MOBS !! symbol) as [id |].
    + destruct (String.eqb id "cloud"); [| destruct (String.eqb id "fireball")];
        split; discriminate.
    + split; reflexivity.
  - discriminate.
  - intros f w' Hf H. cbn [In] in Hf.
    destruct Hf as [<- | [<- | [<- | [<- | []]]]].
    + eapply create_block_one_more; eassumption.
    + eapply create_item_one_more; eassumption.
    + eapply create_mob_one_more; eassumption.
    + eapply create_unknown_one_more; eassumption.
Qed.

(** X6.  Whatever the symbol, [create_item] either raises or adds a [Coin],
    and [create_mob] either raises or adds a [CloudMob], at
    (x * BLOCK_SIZE, y * BLOCK_SIZE): with the tables as they are, the
    [DroppedItem], [Fireball] and plain [Mob] branches are never taken, so no
    level symbol puts a fireball in the world. *)
Theorem item_and_mob_factories_build (w : World) (symbol : string) (x y : Z)
  (w' : World) :
  let here := (inject_Z (x * BLOCK_SIZE), inject_Z (y * BLOCK_SIZE)) in
  (create_item w symbol x y = Some w' ->
     symbol = "C" /\
     items w' = (items w ++ [(mkObj (fresh w) Coin, here)])%list /\
     blocks w' = blocks w /\ mobs w' = mobs w /\ things w' = things w) /\
  (create_mob w symbol x y = Some w' ->
     symbol = "&" /\
     mobs w' = (mobs w ++ [(mkObj (fresh w) CloudMob, here)])%list /\
     blocks w' = blocks w /\ items w' = items w /\ things w' = things w).
Proof.
  standalone. intros here. split.
  - unfold create_item. destruct (ITEMS !! symbol) as [id |] eqn:E;
      [| discriminate].
    apply ITEMS_registered in E as [-> ->]. cbn.
    intros H. inversion H. subst w'. cbn. repeat split.
  - unfold create_mob. destruct (MOBS !! symbol) as [id |] eqn:E;
      [| discriminate].
    apply MOBS_registered in E as [-> ->]. cbn.
    intros H. inversion H. subst w'. cbn. repeat split.
Qed.

(** ** More on the registry *)

(** The factory the builder of [__init__] has for a symbol: the last
    registration wins. *)
Lemma initial_builder_dispatch (symbol : string) :
  builders initial_builder !! symbol =
    if decide (symbol ∈ dom MOBS) then Some create_mob
    else if decide (symbol ∈ dom ITEMS) then Some create_item
    else if decide (symbol ∈ dom BLOCKS) then Some create_block
    else None.
Proof.
  standalone. unfold initial_builder, register_builders.
  cbn [builders WorldBuilder_new].
  rewrite !lookup_union, !lookup_gset_to_gmap, lookup_empty.
  destruct (decide (symbol ∈ dom MOBS)), (decide (symbol ∈ dom ITEMS)),
    (decide (symbol ∈ dom BLOCKS));
    repeat first [rewrite option_guard_True by assumption
                 | rewrite option_guard_False by assumption];
    reflexivity.
Qed.

Lemma known_builder_total (b : WorldBuilder) (symbol : string) (x y : Z)
  (w : World) :
  known_builder b ->
  exists w', on_placement b symbol x y w = Some w' /\ one_entity_more w w'.
Proof.
  standalone. intros [-> | ->]; unfold on_placement.
  - rewrite initial_builder_dispatch.
    destruct (decide (symbol ∈ dom MOBS)) as [Hm | _];
      [| destruct (decide (symbol ∈ dom ITEMS)) as [Hi | _];
         [| destruct (decide (symbol ∈ dom BLOCKS)) as [Hb | _]]];
      unfold default; cbn [from_option id].
    + destruct (create_mob w symbol x y) as [w' |] eqn:E.
      * exists w'. split; [reflexivity |]. eapply create_mob_one_more, E.
      * apply elem_of_dom in Hm as [v Hv]. exfalso.
        unfold create_mob in E. rewrite Hv in E.
        destruct (String.eqb v "cloud"); [| destruct (String.eqb v "fireball")];
          discriminate.
    + destruct (create_item w symbol x y) as [w' |] eqn:E.
      * exists w'. split; [reflexivity |]. eapply create_item_one_more, E.
      * apply elem_of_dom in Hi as [v Hv]. exfalso.
        unfold create_item in E. rewrite Hv in E.
        destruct (String.eqb v "coin"); discriminate.
    + destruct (create_block w symbol x y) as [w' |] eqn:E.
      * exists w'. split; [reflexivity |]. eapply create_block_one_more, E.
      * apply elem_of_dom in Hb as [v Hv]. exfalso.
        unfold create_block in E. rewrite Hv in E.
        destruct (String.eqb v "mystery_empty");
          [| destruct (String.eqb v "mystery_coin")]; discriminate.
    + eexists. split; [reflexivity |].
      apply (create_unknown_one_more w symbol x y). reflexivity.
  - cbn [clear builders fallback]. rewrite lookup_empty. unfold default; cbn [from_option id].
    eexists. split; [reflexivity |].
    apply (create_unknown_one_more w symbol x y). reflexivity.
Qed.

Lemma place_all_total (b : WorldBuilder) (feed : list (string * Z * Z))
  (w : World) :
  known_builder b ->
  exists w', place_all b feed w = Some w' /\
    entity_count w' = entity_count w + length feed /\
    fresh w' = fresh w + length feed /\
    rules w' = rules w /\ has_player w' = has_player w /\
    pixel_size w' = pixel_size w.
Proof.
  standalone. intros Hb. revert w.
  induction feed as [| [[symbol x] y] feed IH]; intros w.
  - exists w. cbn. repeat split; lia.
  - destruct (known_builder_total b symbol x y w Hb)
      as (w1 & E1 & Hc & Hf & _ & Hr & Hp & Hs).
    destruct (IH w1) as (w2 & E2 & Hc2 & Hf2 & Hr2 & Hp2 & Hs2).
    exists w2. cbn [place_all length]. rewrite E1.
    repeat split; try congruence; lia.
Qed.

(** X7.  With the builder of [__init__], before or after [clear], no
    placement ever fails.  Before [clear], the block symbols go to
    [create_block], ['C'] to [create_item], ['&'] to [create_mob] and every
    other symbol to [create_unknown], each of which finds its key; after
    [clear], every symbol, registered before or not, goes to
    [create_unknown].  So, before or after [clear], any feed loads, it yields
    exactly one entity per placement, and a level fails to load only when its
    file is missing. *)
Theorem placement_never_fails (b : WorldBuilder) :
  known_builder b ->
  (forall symbol x y w,
     on_placement initial_builder symbol x y w =
       match BLOCKS !! symbol, ITEMS !! symbol, MOBS !! symbol with
       | Some _, _, _ => create_block w symbol x y
       | None, Some _, _ => create_item w symbol x y
       | None, None, Some _ => create_mob w symbol x y
       | None, None, None => create_unknown w symbol x y
       end) /\
  (forall symbol x y w,
     on_placement (clear initial_builder) symbol x y w =
       create_unknown w symbol x y) /\
  (forall feed w, exists w',
     place_all b feed w = Some w' /\
     entity_count w' = entity_count w + length feed) /\
  (forall name, load_world b name = None <-> read_level name = None) /\
  (forall name w level,
     load_world b name = Some w -> read_level name = Some level ->
     entity_count w = length (placements level) /\
     pixel_size w = level_pixel_size level).
Proof.
  clear MysteryBlock_id collect Block_on_hit Mob_on_hit Arbiter.
  intros Hb. split; [| split; [| split; [| split]]].
  - intros symbol x y w. unfold on_placement.
    rewrite initial_builder_dispatch.
    destruct (BLOCKS !! symbol) as [vb |] eqn:Eb.
    + destruct (BLOCKS_registered _ _ Eb)
        as [[-> ->] | [[-> ->] | [[-> ->] | [[-> ->] | [-> ->]]]]];
        reflexivity.
    + apply not_elem_of_dom in Eb.
      destruct (ITEMS !! symbol) as [vi |] eqn:Ei.
      * destruct (ITEMS_registered _ _ Ei) as [-> ->]. reflexivity.
      * apply not_elem_of_dom in Ei.
        destruct (MOBS !! symbol) as [vm |] eqn:Em.
        -- destruct (MOBS_registered _ _ Em) as [-> ->]. reflexivity.
        -- apply not_elem_of_dom in Em.
           repeat case_decide; try contradiction. reflexivity.
  - intros symbol x y w. unfold on_placement.
    cbn [clear builders fallback]. rewrite lookup_empty. reflexivity.
  - intros feed w. destruct (place_all_total b feed w Hb) as (w' & E & Hc & _).
    exists w'. split; assumption.
  - intros name. unfold load_world. destruct (read_level name) as [level |].
    + destruct (place_all_total b (placements level)
                  (World_new (level_pixel_size level)) Hb) as (w' & E & _).
      rewrite E. split; discriminate.
    + split; reflexivity.
  - intros name w level Hl Hr. unfold load_world in Hl. rewrite Hr in Hl.
    destruct (place_all_total b (placements level)
                (World_new (level_pixel_size level)) Hb)
      as (w' & E & Hc & _ & _ & _ & Hs).
    rewrite E in Hl. inversion Hl. subst w'. split; [exact Hc | exact Hs].
Qed.

(** ** More on loading a level *)

Lemma load_world_known (b : WorldBuilder) (name : string) :
  known_builder b ->
  match read_level name with
  | None => load_world b name = None
  | Some level =>
      exists w, load_world b name = Some w /\
        entity_count w = length (placements level) /\
        fresh w = length (placements level) /\
        rules w = [] /\ has_player w = false /\
        pixel_size w = level_pixel_size level
  end.
Proof.
  clear MysteryBlock_id collect Block_on_hit Mob_on_hit Arbiter.
  intros Hb. unfold load_world. destruct (read_level name) as [level |];
    [| reflexivity].
  destruct (place_all_total b (placements level)
              (World_new (level_pixel_size level)) Hb)
    as (w & E & Hc & Hf & Hr & Hp & Hs).
  exists w. cbn in Hc, Hf, Hr, Hp, Hs. repeat split; assumption.
Qed.

Lemma clear_known (b : WorldBuilder) :
  known_builder b -> clear b = clear initial_builder.
Proof. standalone. intros [-> | ->]; reflexivity. Qed.

(** X8.  With the builder of [__init__], [reset_world] raises exactly when the
    level file is missing.  When it completes, the world holds exactly one
    entity per placement of the level and the player, has the size of the
    level and exactly the six collision rules, however many loads came
    before; the player stands at (BLOCK_SIZE, BLOCK_SIZE); the level is
    remembered; the view still has the offset and the canvas of before, until
    the next tick; and nothing of the previous world survives, the new world
    being the same whatever the world, the player or the level before. *)
Theorem reset_world_rebuilds (new_level : string) (s : MarioApp) :
  known_builder (_builder s) ->
  (reset_world new_level s = None <-> read_level new_level = None) /\
  (forall s' level,
     reset_world new_level s = Some s' -> read_level new_level = Some level ->
     entity_count (_world s') = length (placements level) /\
     pixel_size (_world s') = level_pixel_size level /\
     has_player (_world s') = true /\
     rules (_world s') = collision_rules /\
     get_position (_player s') = (inject_Z BLOCK_SIZE, inject_Z BLOCK_SIZE) /\
     _level_holder s' = new_level /\
     _builder s' = clear initial_builder /\
     view_offset s' = view_offset s /\ canvas s' = canvas s /\
     (forall s2 s2', _builder s2 = _builder s ->
        reset_world new_level s2 = Some s2' -> _world s2' = _world s')).
Proof.
  clear MysteryBlock_id collect Block_on_hit Mob_on_hit Arbiter.
  intros Hb. pose proof (load_world_known (_builder s) new_level Hb) as Hl.
  unfold reset_world. destruct (read_level new_level) as [level |].
  - destruct Hl as (w & E & Hc & Hf & Hr & Hp & Hs). rewrite E.
    split; [split; discriminate |].
    intros s' level' H Hlevel. inversion Hlevel. subst level'. clear Hlevel.
    inversion H. subst s'. clear H.
    cbn. rewrite Hr. unfold entity_count in *. cbn.
    repeat split; try assumption.
    + now apply clear_known.
    + intros s2 s2' Hb2 H2. rewrite Hb2, E in H2.
      inversion H2. subst s2'. cbn. rewrite ?Hr. reflexivity.
  - rewrite Hl. split; [split; reflexivity |]. discriminate.
Qed.

(** ** More on runs *)

Lemma step_keeps (after : World * Player) (s : MarioApp) :
  _world (step after s) = fst after /\ _player (step after s) = snd after /\
  canvas (step after s) = get_all_things (fst after) /\
  view_offset (step after s) =
    view_offset (scroll (with_player (snd after) (with_world (fst after) s))) /\
  _builder (step after s) = _builder s /\
  _level_holder (step after s) = _level_holder s /\
  winfo_width (step after s) = winfo_width s.
Proof.
  unfold step.
  destruct (scroll_only_offset
              (with_player (snd after) (with_world (fst after) s))) as [o ->].
  cbn [redraw with_canvas set_offset with_player with_world _player
       _death_action].
  destruct (get_health (snd after) =? 0)%Z; destruct (_death_action s);
    cbn; repeat split.
Qed.

Lemma handle_level (e : Event) (s : MarioApp) :
  known_builder (_builder s) ->
  _level_holder (handle e s) = level_after (_level_holder s) e /\
  known_builder (_builder (handle e s)).
Proof.
  clear MysteryBlock_id collect Block_on_hit Mob_on_hit Arbiter.
  intros Hb. destruct e as [after | k | level | | width];
    cbn [handle level_after].
  - destruct (step_keeps after s) as (_ & _ & _ & _ & Hbd & Hl & _).
    rewrite Hbd, Hl. auto.
  - destruct k; cbn; auto.
  - pose proof (load_world_known (_builder s) level Hb) as Hl.
    unfold reset_world. destruct (read_level level) as [lv |].
    + destruct Hl as (w & E & _). rewrite E. cbn.
      split; [reflexivity |]. right. now apply clear_known.
    + rewrite Hl. cbn. auto.
  - pose proof (load_world_known (_builder s) (_level_holder s) Hb) as Hl.
    unfold reset_world. destruct (read_level (_level_holder s)) as [lv |].
    + destruct Hl as (w & E & _). rewrite E. cbn.
      split; [reflexivity |]. right. now apply clear_known.
    + rewrite Hl. cbn. auto.
  - cbn. auto.
Qed.

(** X9.  Over any run of a game built on the builder of [__init__],
    [_level_holder] names the last level asked for whose file exists: a load
    of a missing level, a reset, a tick, a key press and a resize leave it as
    it is.  So RESET LEVEL reloads the last level that did load. *)
Theorem level_holder_tracks_last_load (events : list Event) (s : MarioApp) :
  known_builder (_builder s) ->
  _level_holder (run events s) = fold_left level_after events (_level_holder s).
Proof.
  clear MysteryBlock_id collect Block_on_hit Mob_on_hit Arbiter.
  revert s. induction events as [| e events IH]; intros s Hb; [reflexivity |].
  destruct (handle_level e s Hb) as [Hl Hb'].
  unfold run in *. cbn [fold_left]. rewrite (IH _ Hb'), Hl. reflexivity.
Qed.

(** The offset [scroll] leaves depends on the player's abscissa, the width of
    the window and the width of the world only. *)
Lemma scroll_offset_depends (s1 s2 : MarioApp) :
  fst (get_position (_player s1)) = fst (get_position (_player s2)) ->
  winfo_width s1 = winfo_width s2 ->
  fst (get_pixel_size (_world s1)) = fst (get_pixel_size (_world s2)) ->
  view_offset (scroll s1) = view_offset (scroll s2).
Proof.
  intros Hx Hw Hp.
  destruct (scroll_cases s1) as [[H1 E1] | [(H1 & F1 & E1) | (H1 & F1 & E1)]];
  destruct (scroll_cases s2) as [[H2 E2] | [(H2 & F2 & E2) | (H2 & F2 & E2)]];
    rewrite E1, E2; cbn [view_offset set_offset];
    rewrite <- ?Hx, <- ?Hw, <- ?Hp in *; try reflexivity; exfalso; lra.
Qed.

(** X10.  A tick shows what the physics step leaves and nothing else: the
    world and the player after the tick are exactly the outcome of the step
    (scrolling, redrawing and the death prompt do not touch them), the canvas
    is redrawn from [get_all_things] of that world, and offset and canvas are
    the same from whatever offset, canvas, world and player the tick started,
    given the width of the window.  The builder, the level and the width are
    left alone. *)
Theorem step_shows_the_physics_outcome (after : World * Player) (s : MarioApp) :
  _world (step after s) = fst after /\
  _player (step after s) = snd after /\
  canvas (step after s) = get_all_things (fst after) /\
  _builder (step after s) = _builder s /\
  _level_holder (step after s) = _level_holder s /\
  winfo_width (step after s) = winfo_width s /\
  (forall s2, winfo_width s2 = winfo_width s ->
     view_offset (step after s2) = view_offset (step after s) /\
     canvas (step after s2) = canvas (step after s)).
Proof.
  destruct (step_keeps after s) as (Hw & Hp & Hc & Ho & Hb & Hl & Hwd).
  repeat split; try assumption.
  - destruct (step_keeps after s2) as (_ & _ & _ & Ho2 & _).
    rewrite Ho, Ho2. apply scroll_offset_depends; [reflexivity | | reflexivity].
    exact H.
  - destruct (step_keeps after s2) as (_ & _ & Hc2 & _). congruence.
Qed.

(** X11.  The constructor fails exactly when "level1.txt" is missing.  When it
    completes, the death flag is clear whatever its first tick did, because
    [__init__] assigns it after that tick: if the first physics step ends at
    health 0, one death prompt is open and the flag is clear all the same, so
    that the next tick ending at health 0 opens a second prompt with no load
    in between.  The game starts on "level1.txt", with the world and the
    player as the first tick left them. *)
Theorem constructor_clears_flag_after_first_tick (width : Z)
  (after : World * Player) :
  (__init__ width after = None <-> read_level "level1.txt" = None) /\
  (forall s, __init__ width after = Some s ->
     _death_action s = false /\
     death_popups s = (if (get_health (snd after) =? 0)%Z then 1 else 0) /\
     _level_holder s = "level1.txt" /\
     _world s = fst after /\ _player s = snd after /\
     winfo_width s = width /\ _builder s = clear initial_builder /\
     (forall after',
        get_health (snd after) = 0%Z -> get_health (snd after') = 0%Z ->
        death_popups (step after' s) = 2)).
Proof.
  clear MysteryBlock_id collect Block_on_hit Mob_on_hit Arbiter.
  unfold __init__.
  set (s0 := mkApp initial_builder (Player_new 5) (World_new (0, 0)%Z) ""
                   false (0, 0)%Q [] width 0).
  assert (Hb : known_builder (_builder s0)) by (left; reflexivity).
  pose proof (load_world_known (_builder s0) "level1.txt" Hb) as Hl.
  destruct (reset_world_completes "level1.txt" s0) as (Hok & Hfail & Hpost).
  destruct (read_level "level1.txt") as [level |].
  - destruct Hl as (w & E & _). destruct (Hok w E) as [s1 E1]. rewrite E1.
    split; [split; discriminate |].
    intros s H. inversion H. subst s. clear H.
    destruct (Hpost s1 E1) as (Hd & _ & Hpop & _).
    set (s2 := with_level_holder "level1.txt" s1).
    destruct (step_keeps after s2) as (Hw & Hp & _ & _ & Hbd & Hlv & Hwd).
    destruct (step_death after s2) as [Hpp Hdd].
    cbn [with_death_action _death_action death_popups _level_holder _world
         _player winfo_width _builder].
    assert (Hpops : death_popups (step after s2) =
                    (if (get_health (snd after) =? 0)%Z then 1 else 0)).
    { rewrite Hpp. subst s2. cbn [with_level_holder _death_action death_popups].
      rewrite Hd, Hpop. cbn. rewrite andb_true_r. reflexivity. }
    repeat split; try assumption.
    + rewrite Hwd. subst s2. cbn.
      unfold reset_world in E1. rewrite E in E1. inversion E1. reflexivity.
    + rewrite Hbd. subst s2. cbn.
      unfold reset_world in E1. rewrite E in E1. inversion E1. reflexivity.
    + intros after' Ha Ha'.
      destruct (step_death after' (with_death_action false (step after s2)))
        as [Hq _].
      rewrite Hq. cbn [with_death_action _death_action death_popups].
      apply Z.eqb_eq in Ha, Ha'. rewrite Ha', Hpops, Ha. reflexivity.
  - rewrite (Hfail Hl). split; [split; reflexivity |]. discriminate.
Qed.

(** ** More on the collision handlers *)

Lemma filter_twice {A : Type} (f : A -> bool) (l : list A) :
  List.filter f (List.filter f l) = List.filter f l.
Proof.
  induction l as [| a l IH]; [reflexivity |].
  cbn [List.filter]. destruct (f a) eqn:E; [| exact IH].
  cbn [List.filter]. rewrite E, IH. reflexivity.
Qed.

Lemma filter_swap {A : Type} (f g : A -> bool) (l : list A) :
  List.filter f (List.filter g l) = List.filter g (List.filter f l).
Proof.
  induction l as [| a l IH]; [reflexivity |].
  cbn [List.filter]. destruct (g a) eqn:Eg, (f a) eqn:Ef;
    cbn [List.filter]; rewrite ?Eg, ?Ef, IH; reflexivity.
Qed.

Lemma filter_filter_and {A : Type} (f g : A -> bool) (l : list A) :
  List.filter f (List.filter g l) = List.filter (fun a => g a && f a) l.
Proof.
  induction l as [| a l IH]; [reflexivity |].
  cbn [List.filter]. destruct (g a) eqn:Eg; cbn [andb List.filter];
    [destruct (f a) |]; rewrite IH; reflexivity.
Qed.

(** Two chains of removals agree when they remove the same identities. *)
Ltac same_filters :=
  try reflexivity;
  rewrite ?filter_filter_and; apply List.filter_ext; intros ?e;
  repeat match goal with
         | |- context [is_not ?o ?x] => destruct (is_not o x)
         end;
  reflexivity.

Lemma absent_nothing_removed {A B : Type} (o : Obj A) (l : list (Obj A * B)) :
  present o l = false -> List.filter (is_not o) l = l.
Proof.
  unfold present, is_not. induction l as [| e l IH]; [reflexivity |].
  cbn [existsb List.filter]. intros H. apply orb_false_iff in H as [He Hl].
  rewrite He. cbn [negb]. now rewrite IH.
Qed.

(** X12.  No collision handler, whatever the blocks, mobs and items do when
    hit or collected, touches anything but the world and the player: the
    builder, the level, the death flag, the camera offset, the canvas, the
    window and the death prompts are as before.  The handlers of a mob-item
    contact and of a player-block separation change nothing at all.  The
    answers are fixed: [True] for player-block, player-mob and mob-block,
    [False] for player-item, mob-mob and mob-item. *)
Theorem collision_handlers_frame (player : Player) (block : Obj BlockData)
  (item : Obj ItemData) (mob mob2 : Obj MobData) (arbiter : Arbiter)
  (s : MarioApp) :
  let results :=
    [_handle_player_collide_item player item arbiter s;
     _handle_player_collide_block player block arbiter s;
     _handle_player_separate_block player block arbiter s;
     _handle_player_collide_mob player mob arbiter s;
     _handle_mob_collide_block mob block arbiter s;
     _handle_mob_collide_mob mob mob2 arbiter s;
     _handle_mob_collide_item mob item arbiter s] in
  Forall (fun r => same_but_world_and_player s (snd r)) results /\
  map fst results = [false; true; true; true; true; false; false] /\
  snd (_handle_mob_collide_item mob item arbiter s) = s /\
  snd (_handle_player_separate_block player block arbiter s) = s /\
  (let r := _handle_player_collide_block player block arbiter s in
   (_world (snd r), _player (snd r)) =
     Block_on_hit block arbiter (_world s, _player s)) /\
  (let r := _handle_player_collide_mob player mob arbiter s in
   (_world (snd r), _player (snd r)) =
     Mob_on_hit mob arbiter (_world s, _player s)).
Proof.
  cbv zeta.
  unfold _handle_player_collide_item, _handle_player_collide_block,
    _handle_player_separate_block, _handle_player_collide_mob,
    _handle_mob_collide_block, _handle_mob_collide_mob,
    _handle_mob_collide_item, same_but_world_and_player.
  exec.
  destruct (Block_on_hit block arbiter (_world s, _player s)) as [wb pb].
  destruct (Mob_on_hit mob arbiter (_world s, _player s)) as [wm pm].
  destruct (String.eqb (Mob_get_id mob) "fireball");
    destruct (String.eqb (Block_get_id block) "brick");
    destruct (String.eqb (Mob_get_id mob2) "fireball");
    cbn [orb map fst snd];
    (split; [repeat constructor | repeat split]).
Qed.

(** X13.  The two removal handlers can be run again, and in any order, without
    changing the outcome: a second mob-block contact of the same pair, and a
    second mob-mob contact of the same pair, leave the state of the first; a
    mob-mob contact gives the same state whichever mob comes first; and a
    mob-block contact followed by a mob-mob contact gives the same state as
    the two in the other order. *)
Theorem removal_handlers_commute (mob mob1 mob2 : Obj MobData)
  (block : Obj BlockData) (arbiter : Arbiter) (s : MarioApp) :
  let on_block s := snd (_handle_mob_collide_block mob block arbiter s) in
  let on_mob a b s := snd (_handle_mob_collide_mob a b arbiter s) in
  on_block (on_block s) = on_block s /\
  on_mob mob1 mob2 (on_mob mob1 mob2 s) = on_mob mob1 mob2 s /\
  on_mob mob1 mob2 s = on_mob mob2 mob1 s /\
  on_block (on_mob mob1 mob2 s) = on_mob mob1 mob2 (on_block s).
Proof.
  cbv zeta. unfold _handle_mob_collide_block, _handle_mob_collide_mob.
  destruct (String.eqb (Mob_get_id mob) "fireball");
    destruct (String.eqb (Block_get_id block) "brick");
    destruct (String.eqb (Mob_get_id mob1) "fireball");
    destruct (String.eqb (Mob_get_id mob2) "fireball");
    cbn [orb]; exec; unfold with_world, remove_mob, remove_block;
    cbn [_world _player _builder _level_holder _death_action view_offset canvas
         winfo_width death_popups blocks items mobs things has_player rules
         pixel_size fresh];
    repeat split; f_equal; f_equal; same_filters.
Qed.

(** X14.  The player-item handler does not look whether the item is still
    in the world: for an item that is not (or no longer) there it applies the
    pickup effect all the same and leaves the world as it is, so a second
    contact reported for the same item applies the effect a second time. *)
Theorem item_pickup_ignores_presence (player : Player) (item : Obj ItemData)
  (arbiter : Arbiter) (s : MarioApp) :
  let pick s := snd (_handle_player_collide_item player item arbiter s) in
  (present item (items (_world s)) = false ->
     _world (pick s) = _world s /\
     _player (pick s) = collect item (_player s)) /\
  _player (pick (pick s)) = collect item (collect item (_player s)) /\
  _world (pick (pick s)) = _world (pick s).
Proof.
  cbv zeta. unfold _handle_player_collide_item. exec.
  unfold with_world, with_player, remove_item;
    cbn [_world _player items blocks mobs things has_player rules pixel_size
         fresh].
  split; [| split].
  - intros Ha. rewrite (absent_nothing_removed _ _ Ha).
    split; [now destruct (_world s) | reflexivity].
  - reflexivity.
  - rewrite filter_twice. reflexivity.
Qed.

(** ** Object identities *)

Lemma in_order_sublist (w w' : World) :
  get_all_things w' `sublist_of` get_all_things w -> fresh w' = fresh w ->
  identities_in_order w -> identities_in_order w'.
Proof.
  standalone. intros Hs Hf [Hn Ha]. split.
  - eapply sublist_NoDup; eassumption.
  - rewrite Hf. rewrite Forall_forall in *. intros r Hr.
    apply Ha. eapply elem_of_sublist; eassumption.
Qed.

Lemma removed_sublist {A B : Type} (o : Obj A) (l : list (Obj A * B)) :
  map (fun e => oid (fst e)) (List.filter (is_not o) l)
    `sublist_of` map (fun e => oid (fst e)) l.
Proof.
  induction l as [| e l IH]; [constructor |].
  cbn [List.filter map]. destruct (is_not o e); cbn [map].
  - now apply sublist_skip.
  - now apply sublist_cons.
Qed.

Lemma one_more_in_order (w w' : World) :
  one_entity_more w w' -> identities_in_order w -> identities_in_order w'.
Proof.
  standalone. intros (_ & Hf & Hp & _) [Hn Ha]. split.
  - rewrite Hp. apply NoDup_cons. split; [| exact Hn].
    intros Hin. rewrite Forall_forall in Ha. apply Ha in Hin. lia.
  - rewrite Hp, Hf. constructor; [lia |].
    eapply Forall_impl; [exact Ha |]. cbn. intros r Hr. lia.
Qed.

Lemma place_all_in_order (b : WorldBuilder) (feed : list (string * Z * Z))
  (w w' : World) :
  known_builder b -> identities_in_order w ->
  place_all b feed w = Some w' -> identities_in_order w'.
Proof.
  standalone. intros Hb. revert w.
  induction feed as [| [[symbol x] y] feed IH]; intros w Hw H.
  - cbn in H. inversion H. subst w'. exact Hw.
  - cbn [place_all] in H.
    destruct (known_builder_total b symbol x y w Hb) as (w1 & E1 & H1).
    rewrite E1 in H. eapply IH; [| exact H].
    eapply one_more_in_order; eassumption.
Qed.

(** The identities of one category are distinct when those of the world
    are. *)
Lemma in_order_categories (w : World) :
  identities_in_order w ->
  NoDup (map (fun e => oid (fst e)) (blocks w)) /\
  NoDup (map (fun e => oid (fst e)) (items w)) /\
  NoDup (map (fun e => oid (fst e)) (mobs w)).
Proof.
  standalone. intros [Hn _]. unfold get_all_things in Hn.
  apply NoDup_app in Hn as (Hb & _ & Hn).
  apply NoDup_app in Hn as (Hi & _ & Hn).
  apply NoDup_app in Hn as (Hm & _ & _). auto.
Qed.

(** Removing an object that is there, from a category of distinct
    identities, takes exactly one entry away. *)
Lemma removes_exactly_one {A B : Type} (o : Obj A) (l : list (Obj A * B)) :
  NoDup (map (fun e => oid (fst e)) l) -> present o l = true ->
  S (length (List.filter (is_not o) l)) = length l.
Proof.
  unfold present. induction l as [| e l IH]; [discriminate |].
  cbn [map existsb List.filter length]. intros Hn Hp.
  apply NoDup_cons in Hn as [Hnot Hn]. unfold is_not at 1.
  destruct (Nat.eqb (oid (fst e)) (oid o)) eqn:E; cbn [negb orb] in *.
  - apply Nat.eqb_eq in E. f_equal.
    rewrite absent_nothing_removed; [reflexivity |].
    unfold present. apply not_true_is_false. intros Hex.
    apply existsb_exists in Hex as (e' & Hin & He').
    apply Nat.eqb_eq in He'. apply Hnot. rewrite E, <- He'.
    apply list_elem_of_In, in_map_iff. exists e'. auto.
  - cbn [length]. f_equal. now apply IH.
Qed.

(** X15.  Every world loaded with the builder of [__init__] holds entities of
    pairwise distinct identities, all below the next unused one, and so does
    the world a completed [reset_world] installs.  Factories and
    removals keep it so. *)
Theorem loaded_identities_in_order (b : WorldBuilder) (name : string) :
  known_builder b ->
  (forall w, load_world b name = Some w -> identities_in_order w) /\
  (forall s s', _builder s = b -> reset_world name s = Some s' ->
     identities_in_order (_world s')) /\
  (forall w w' symbol x y f,
     In f [create_block; create_item; create_mob; create_unknown] ->
     identities_in_order w -> f w symbol x y = Some w' ->
     identities_in_order w') /\
  (forall w (block : Obj BlockData) (item : Obj ItemData) (mob : Obj MobData),
     identities_in_order w ->
     identities_in_order (remove_block block w) /\
     identities_in_order (remove_item item w) /\
     identities_in_order (remove_mob mob w)).
Proof.
  clear MysteryBlock_id collect Block_on_hit Mob_on_hit Arbiter.
  intros Hb.
  assert (Hload : forall w, load_world b name = Some w -> identities_in_order w).
  { intros w H. unfold load_world in H.
    destruct (read_level name) as [level |]; [| discriminate].
    eapply place_all_in_order; [exact Hb | | exact H].
    split; [constructor | constructor]. }
  split; [exact Hload |]. split; [| split].
  - intros s s' <- H. unfold reset_world in H.
    destruct (load_world (_builder s) name) as [w |] eqn:E; [| discriminate].
    inversion H. subst s'. cbn.
    eapply in_order_sublist; [| | exact (Hload w eq_refl)]; reflexivity.
  - intros w w' symbol x y f Hf Hw H. cbn [In] in Hf.
    eapply one_more_in_order; [| exact Hw].
    destruct Hf as [<- | [<- | [<- | [<- | []]]]].
    + eapply create_block_one_more; eassumption.
    + eapply create_item_one_more; eassumption.
    + eapply create_mob_one_more; eassumption.
    + eapply create_unknown_one_more; eassumption.
  - intros w block item mob Hw.
    repeat split; (eapply (in_order_sublist w); [| reflexivity | exact Hw]);
      unfold get_all_things; cbn [remove_block remove_item remove_mob blocks
                                  items mobs things];
      repeat apply sublist_app; try reflexivity; apply removed_sublist.
Qed.

(** X16.  In a world of distinct identities a fireball that hits a block
    takes exactly one mob away, itself, and exactly one block when the block
    is a brick; and a mob-mob contact that involves a fireball takes exactly
    the two mobs away.  The identities stay distinct. *)
Theorem fireball_removes_exactly (mob mob2 : Obj MobData)
  (block : Obj BlockData) (arbiter : Arbiter) (s : MarioApp) :
  let after_block := _world (snd (_handle_mob_collide_block mob block arbiter s)) in
  let after_mob := _world (snd (_handle_mob_collide_mob mob mob2 arbiter s)) in
  identities_in_order (_world s) ->
  Mob_get_id mob = "fireball" ->
  present mob (mobs (_world s)) = true ->
  (present block (blocks (_world s)) = true ->
     S (length (mobs after_block)) = length (mobs (_world s)) /\
     (Block_get_id block = "brick" ->
        S (length (blocks after_block)) = length (blocks (_world s))) /\
     identities_in_order after_block) /\
  (present mob2 (mobs (_world s)) = true -> oid mob2 <> oid mob ->
     S (S (length (mobs after_mob))) = length (mobs (_world s)) /\
     identities_in_order after_mob).
Proof.
  clear collect Block_on_hit Mob_on_hit read_level.
  intros after_block after_mob Hw Hf Hp.
  destruct (in_order_categories _ Hw) as (Hnb & _ & Hnm).
  subst after_block after_mob.
  unfold _handle_mob_collide_block, _handle_mob_collide_mob.
  apply String.eqb_eq in Hf. rewrite Hf. cbn [orb]. split.
  - intros Hpb.
    destruct (String.eqb (Block_get_id block) "brick") eqn:Eb; exec;
      (split; [now apply removes_exactly_one |]); split.
    + intros _. now apply removes_exactly_one.
    + eapply (in_order_sublist (_world s)); [| reflexivity | exact Hw].
      unfold get_all_things; cbn [blocks items mobs things].
      repeat apply sublist_app; try reflexivity; apply removed_sublist.
    + apply String.eqb_neq in Eb. contradiction.
    + eapply (in_order_sublist (_world s)); [| reflexivity | exact Hw].
      unfold get_all_things; cbn [blocks items mobs things].
      repeat apply sublist_app; try reflexivity; apply removed_sublist.
  - intros Hp2 Hne. exec. split.
    + rewrite (removes_exactly_one mob2).
      * now apply removes_exactly_one.
      * eapply sublist_NoDup; [exact Hnm | apply removed_sublist].
      * unfold present in *. apply existsb_exists in Hp2 as (e & Hin & He).
        apply existsb_exists. exists e. split; [| exact He].
        apply filter_In. split; [exact Hin |].
        unfold is_not. apply negb_true_iff, Nat.eqb_neq.
        apply Nat.eqb_eq in He. congruence.
    + eapply (in_order_sublist (_world s)); [| reflexivity | exact Hw].
      unfold get_all_things; cbn [blocks items mobs things].
      repeat apply sublist_app; try reflexivity.
      etransitivity; apply removed_sublist.
Qed.

(** ** More on the input handlers and the renderer *)

Lemma bind_overwrites (k k' : Key) (s : MarioApp) :
  bind k (bind k' s) = if is_duck k then bind k' s else bind k s.
Proof. destruct k, k'; reflexivity. Qed.

Lemma bind_duck (k : Key) (s : MarioApp) :
  is_duck k = true -> bind k s = s.
Proof. destruct k; try discriminate; reflexivity. Qed.

Lemma press_from (keys : list Key) (k0 : option Key) (s : MarioApp) :
  press keys (match k0 with Some k => bind k s | None => s end) =
  match last_effective k0 keys with Some k => bind k s | None => s end.
Proof.
  revert k0. induction keys as [| k keys IH]; intros k0; [reflexivity |].
  unfold press, last_effective in *. cbn [fold_left].
  destruct (is_duck k) eqn:E.
  - rewrite <- IH. f_equal. now apply bind_duck.
  - rewrite <- (IH (Some k)). f_equal.
    destruct k0 as [k' |].
    + rewrite bind_overwrites, E. reflexivity.
    + reflexivity.
Qed.

(** X17.  Key presses do not add up: after any sequence of key events the
    state is the one the last key not bound to [_duck] alone would give, and
    the state before when there is no such key.  Holding or repeating a
    direction key does not build up speed. *)
Theorem key_presses_last_one_wins (keys : list Key) (s : MarioApp) :
  press keys s =
    match last_effective None keys with
    | Some k => bind k s
    | None => s
    end.
Proof. exact (press_from keys None s). Qed.

(** X18.  Right after a key handler has run, the player, drawn for a shape
    that carries the player's velocity, faces left for the three keys bound
    to a move left, faces right for the keys bound to a jump or to a move
    right (a jump turns a player that was moving left to the right), and
    faces as before for the keys bound to [_duck].  The drawer always makes
    exactly one image, tagged "player", at the centre of the shape shifted
    by the horizontal offset only. *)
Theorem player_faces_last_key (k : Key) (s : MarioApp) (shape : Shape)
  (offset : Q * Q) :
  body_velocity shape = velocity (_player (bind k s)) ->
  _draw_player shape offset =
    [mkCanvasImage
       (fst (bb_center shape) + fst offset)%Q (snd (bb_center shape))
       (match k with
        | Key_a | Key_Left | Key_A => "mario_left"
        | Key_s | Key_Down | Key_S =>
            if Qle_bool 0 (fst (velocity (_player s))) then "mario_right"
            else "mario_left"
        | _ => "mario_right"
        end)
       "player"].
Proof.
  intros Hv. unfold _draw_player. rewrite Hv. destruct k; reflexivity.
Qed.

(** X19.  After [scroll], the player's image, drawn for a shape centred at
    the player's abscissa, lies within the window, [0 <= x <= width],
    whenever the player is within the world; and every image, of the player
    or of a mystery block, is drawn at the height of its shape and, when the
    window is no wider than the world, nowhere to the right of where the
    shape is in the world and at most [world_width - viewport_width] to its
    left. *)
Theorem images_follow_the_camera (s : MarioApp) (shape : Shape)
  (is_active : bool) :
  let offset := view_offset (scroll s) in
  let width := inject_Z (winfo_width s) in
  let world := inject_Z (fst (get_pixel_size (_world s))) in
  let x := fst (get_position (_player s)) in
  ((fst (bb_center shape) == x)%Q ->
   (0 <= x)%Q -> (x <= world)%Q -> (0 <= winfo_width s)%Z ->
   Forall (fun i => (0 <= image_x i)%Q /\ (image_x i <= width)%Q)
          (_draw_player shape offset)) /\
  ((winfo_width s <= fst (get_pixel_size (_world s)))%Z ->
   Forall (fun i =>
             (image_x i <= fst (bb_center shape))%Q /\
             (fst (bb_center shape) - (world - width) <= image_x i)%Q /\
             image_y i = snd (bb_center shape))
          (_draw_player shape offset ++
           _draw_mystery_block is_active shape offset)).
Proof.
  intros offset width world x. subst offset width world x. split.
  - intros Hc H0 Hw Hv. rewrite Zle_Qle in Hv.
    change (inject_Z 0) with 0%Q in Hv.
    unfold _draw_player. constructor; [| constructor].
    cbn [image_x].
    destruct (scroll_cases s) as [[Hx E] | [(Hx & Hf & E) | (Hx & Hf & E)]];
      rewrite E; cbn [view_offset set_offset fst]; split; halves.
  - intros Hle. rewrite Zle_Qle in Hle.
    unfold _draw_player, _draw_mystery_block. cbn [app].
    repeat constructor; cbn [image_x image_y];
    destruct (scroll_cases s) as [[Hx E] | [(Hx & Hf & E) | (Hx & Hf & E)]];
      rewrite E; cbn [view_offset set_offset fst]; halves.
Qed.

End Collaborators.

(** ** The properties at work on the sample data *)

Lemma scroll_offset_piecewise_witness :
  (fst (view_offset (scroll (sample_app 1000 800 3200 5 false))) == -600)%Q.
Proof.
  pose proof (scroll_offset_piecewise (sample_app 1000 800 3200 5 false)) as H.
  cbv zeta in H. destruct H as (_ & _ & _ & _ & _ & H).
  apply H; reflexivity.
Defined.

(** C1, as first stated, fails twice.  With a viewport of 800 and a world of
    3200 the offset at 3100 is -2400, not -2800.  And with a viewport of 800
    and a world of 400 the player at 100 is at once left of the middle of the
    viewport and right of [world_width - viewport_width / 2]: the offset is
    0, not [viewport_width / 2 - (world_width - viewport_width / 2)]. *)
Lemma scroll_offset_as_stated_fails :
  (fst (view_offset (scroll (sample_app 3100 800 3200 5 false))) == -2400)%Q /\
  ~ (fst (view_offset (scroll (sample_app 3100 800 3200 5 false))) == -2800)%Q /\
  (inject_Z 400 - inject_Z 800 / 2 <= 100)%Q /\
  (fst (view_offset (scroll (sample_app 100 800 400 5 false))) == 0)%Q /\
  ~ (fst (view_offset (scroll (sample_app 100 800 400 5 false))) ==
     inject_Z 800 / 2 - (inject_Z 400 - inject_Z 800 / 2))%Q.
Proof.
  repeat split; try reflexivity; try discriminate.
Defined.

Lemma mob_collide_block_rule_witness :
  let hit b :=
    _handle_mob_collide_block "mystery" unit sample_fireball b tt
                              (sample_game 5 false) in
  present sample_fireball (mobs (_world (snd (hit sample_brick)))) = false /\
  present sample_brick (blocks (_world (snd (hit sample_brick)))) = false /\
  blocks (_world (snd (hit sample_base))) = blocks sample_world.
Proof.
  cbv zeta.
  pose proof (mob_collide_block_rule "mystery" unit sample_fireball
                sample_brick tt (sample_game 5 false)) as H.
  pose proof (mob_collide_block_rule "mystery" unit sample_fireball
                sample_base tt (sample_game 5 false)) as H'.
  cbv zeta in H, H'.
  destruct H as (_ & H & _). destruct (H eq_refl) as (Hm & Hb & _).
  destruct H' as (_ & H' & _). destruct (H' eq_refl) as (_ & _ & Hk & _).
  split; [exact Hm |]. split; [apply Hb; reflexivity |].
  apply Hk. reflexivity.
Defined.

Lemma mob_collide_mob_rule_witness :
  let hit a b :=
    _handle_mob_collide_mob unit a b tt (sample_game 5 false) in
  (present sample_cloud (mobs (_world (snd (hit sample_cloud sample_fireball))))
     = false /\
   present sample_fireball
     (mobs (_world (snd (hit sample_cloud sample_fireball)))) = false) /\
  snd (hit sample_cloud sample_other_cloud) = sample_game 5 false.
Proof.
  cbv zeta.
  pose proof (mob_collide_mob_rule unit sample_cloud sample_fireball tt
                (sample_game 5 false)) as H.
  pose proof (mob_collide_mob_rule unit sample_cloud sample_other_cloud tt
                (sample_game 5 false)) as H'.
  cbv zeta in H, H'.
  destruct H as (_ & _ & _ & H). destruct H' as (_ & _ & H' & _).
  split.
  - apply H; [reflexivity | reflexivity |]. right. reflexivity.
  - apply H'. intros [E | E]; discriminate E.
Defined.

Lemma player_collide_item_rule_witness :
  let r :=
    _handle_player_collide_item sample_collect unit (sample_player 100 5)
                                sample_coin tt (sample_game 5 false) in
  In (sample_coin, at_ 32 208) (items sample_world) /\
  ~ In (sample_coin, at_ 32 208) (items (_world (snd r))).
Proof.
  cbv zeta.
  pose proof (player_collide_item_rule sample_collect unit
                (sample_player 100 5) sample_coin tt (sample_game 5 false))
    as H.
  cbv zeta in H. destruct H as (_ & _ & _ & H & _).
  split; [left; reflexivity |].
  intros Hin. apply H in Hin as [_ Hne]. apply Hne. reflexivity.
Defined.

Lemma create_block_mapping_witness :
  exists w,
    create_block (World_new (3200, 240)%Z) "#" 2 3 = Some w /\
    blocks w = [(mkObj 0 (Block "brick"), (inject_Z 32, inject_Z 48))].
Proof.
  pose proof (create_block_mapping (World_new (3200, 240)%Z) 2 3) as H.
  cbv zeta in H. destruct H as (_ & _ & _ & H).
  destruct (H "#" "brick" eq_refl) as (w & Hw & Hb & _);
    [discriminate | discriminate |].
  exists w. split; [exact Hw | exact Hb].
Defined.

Lemma unknown_symbol_falls_back_witness :
  exists w,
    on_placement initial_builder "x" 7 7 (World_new (3200, 240)%Z) = Some w /\
    things w =
      [(mkObj 0 Entity, (inject_Z 112, inject_Z 112), (16, 16)%Z)] /\
    blocks w = [] /\ items w = [] /\ mobs w = [].
Proof.
  assert (Hu : unregistered "x") by (repeat split; reflexivity).
  destruct (unknown_symbol_falls_back "x" 7 7 (World_new (3200, 240)%Z) Hu)
    as ((w & Hw & Ht & Hb & Hi & Hm) & _).
  exists w. repeat split; assumption.
Defined.

Lemma death_prompt_once_per_life_witness :
  let dead := (sample_world, sample_player 100 0) in
  death_popups
    (run sample_files [Tick dead; KeyDown Key_Up; Tick dead; Resize 640; Tick dead]
         (sample_game 5 false)) = 1.
Proof.
  cbv zeta.
  destruct (death_prompt_once_per_life sample_files)
    as (_ & _ & _ & _ & H & _).
  apply H; reflexivity.
Defined.

Lemma reset_world_restores_health_witness :
  exists s',
    reset_world sample_files "level1.txt" (sample_game 0 true) = Some s' /\
    get_health (_player s') = 5%Z /\ _death_action s' = false.
Proof.
  assert (Hh : (0 <= get_health (_player (sample_game 0 true)))%Z)
    by (cbn; lia).
  destruct (reset_world_restores_health sample_files "level1.txt"
              (sample_game 0 true) Hh) as [Hpost Hok].
  assert (Hl : exists w,
             load_world sample_files (_builder (sample_game 0 true))
                        "level1.txt" = Some w)
    by (vm_compute; eexists; reflexivity).
  destruct Hl as [w Hl]. destruct (Hok w Hl) as [s' Hs'].
  destruct (Hpost s' Hs') as (Hhealth & Hmax & Hd & _).
  exists s'. split; [exact Hs' |]. split; [| exact Hd].
  rewrite Hhealth, Hmax. reflexivity.
Defined.

(** C7.  The code at an input on which it opens the death prompt twice in one
    life.  The constructor loads "level1.txt" and runs its first tick, then
    assigns [_death_action = False].  When the physics step of that first
    tick leaves the player at health 0, the tick opens the death prompt and
    sets the flag, and the assignment that follows clears it: the constructed
    application has one prompt open and the flag clear.  The next tick ending
    at health 0 then opens a second prompt, although no level was loaded in
    between, and a third tick opens none. *)
Theorem constructor_tick_opens_second_prompt :
  exists s,
    __init__ sample_two_files 800 sample_dead = Some s /\
    get_health (_player s) = 0%Z /\
    death_popups s = 1 /\ _death_action s = false /\
    forallb (fun e => negb (is_load e)) [Tick sample_dead; Tick sample_dead]
      = true /\
    death_popups (run sample_two_files [Tick sample_dead] s) = 2 /\
    death_popups
      (run sample_two_files [Tick sample_dead; Tick sample_dead] s) = 2.
Proof.
  destruct (__init__ sample_two_files 800 sample_dead) as [s |] eqn:E.
  - exists s. split; [reflexivity |].
    vm_compute in E. inversion E. subst s. clear E.
    repeat split.
  - vm_compute in E. discriminate E.
Qed.

(** ** More of the properties at work on the sample data *)

Lemma scroll_keeps_player_in_window_witness :
  let shown :=
    (3100 + fst (view_offset (scroll (sample_app 3100 800 3200 5 false))))%Q in
  (0 <= shown)%Q /\ (shown <= 800)%Q.
Proof.
  cbv zeta.
  pose proof (scroll_keeps_player_in_window (sample_app 3100 800 3200 5 false))
    as H.
  cbv zeta in H. destruct H as (H1 & H2 & _); try discriminate.
  split; [exact H1 | exact H2].
Defined.

Lemma scroll_stays_inside_world_witness :
  let left :=
    (- fst (view_offset (scroll (sample_app 3100 800 3200 5 false))))%Q in
  (0 <= left)%Q /\ (left + 800 <= 3200)%Q.
Proof.
  cbv zeta.
  pose proof (scroll_stays_inside_world (sample_app 3100 800 3200 5 false))
    as H.
  cbv zeta in H. apply H. discriminate.
Defined.

Lemma scroll_follows_no_faster_witness :
  let o1 := fst (view_offset (scroll (sample_app 300 800 3200 5 false))) in
  let o2 := fst (view_offset (scroll (sample_app 1000 800 3200 5 false))) in
  (o2 <= o1)%Q /\ (o1 - o2 <= 1000 - 300)%Q.
Proof.
  cbv zeta.
  pose proof (scroll_follows_no_faster (sample_app 300 800 3200 5 false)
                (sample_app 1000 800 3200 5 false)) as H.
  cbv zeta in H. apply H; try reflexivity; discriminate.
Defined.

Lemma factories_raise_exactly_witness :
  create_block (World_new (3200, 240)%Z) "C" 0 0 = None /\
  create_item (World_new (3200, 240)%Z) "#" 0 0 = None.
Proof.
  destruct (factories_raise_exactly (World_new (3200, 240)%Z) "C" 0 0)
    as (Hb & _).
  destruct (factories_raise_exactly (World_new (3200, 240)%Z) "#" 0 0)
    as (_ & Hi & _).
  split; [apply Hb | apply Hi]; reflexivity.
Defined.

Lemma item_and_mob_factories_build_witness :
  mobs (add_mob (mkObj 0 CloudMob) 80 80 (World_new (3200, 240)%Z)) =
    [(mkObj 0 CloudMob, (inject_Z (5 * BLOCK_SIZE), inject_Z (5 * BLOCK_SIZE)))].
Proof.
  pose proof (item_and_mob_factories_build (World_new (3200, 240)%Z) "&" 5 5
                (add_mob (mkObj 0 CloudMob) 80 80
                         (snd (new CloudMob (World_new (3200, 240)%Z))))) as H.
  cbv zeta in H. destruct H as (_ & H).
  destruct (H eq_refl) as (_ & Hm & _). exact Hm.
Defined.

Lemma placement_never_fails_witness :
  load_world sample_two_files (clear initial_builder) "level3.txt" = None /\
  on_placement (clear initial_builder) "#" 0 14 (World_new (64, 64)%Z) =
    create_unknown (World_new (64, 64)%Z) "#" 0 14 /\
  exists w,
    place_all (clear initial_builder)
              [("#", 0, 0); ("zz", 1, 1); ("&", 2, 2)]%Z
              (World_new (64, 64)%Z) = Some w /\
    entity_count w = 3.
Proof.
  destruct (placement_never_fails sample_two_files (clear initial_builder)
              (or_intror eq_refl)) as (_ & Hclear & Hfeed & Hload & _).
  split; [apply Hload; reflexivity |]. split; [apply Hclear |].
  destruct (Hfeed [("#", 0, 0); ("zz", 1, 1); ("&", 2, 2)]%Z
                  (World_new (64, 64)%Z)) as (w & Hw & Hc).
  exists w. split; [exact Hw | exact Hc].
Defined.

Lemma reset_world_rebuilds_witness :
  reset_world sample_two_files "level3.txt" (sample_game 5 false) = None /\
  forall s',
    reset_world sample_two_files "level2.txt" (sample_game 5 false) = Some s' ->
    entity_count (_world s') = 3 /\ rules (_world s') = collision_rules.
Proof.
  destruct (reset_world_rebuilds sample_two_files "level3.txt"
              (sample_game 5 false) (or_introl eq_refl)) as (Hnone & _).
  destruct (reset_world_rebuilds sample_two_files "level2.txt"
              (sample_game 5 false) (or_introl eq_refl)) as (_ & Hsome).
  split; [apply Hnone; reflexivity |].
  intros s' Hs'. destruct (Hsome s' _ Hs' eq_refl) as (Hc & _ & _ & Hr & _).
  split; [exact Hc | exact Hr].
Defined.

Lemma level_holder_tracks_last_load_witness :
  _level_holder
    (run sample_two_files
         [Load "level2.txt"; Tick sample_dead; Load "level3.txt"; Reset;
          KeyDown Key_Left]
         (sample_game 5 false)) = "level2.txt".
Proof.
  apply (level_holder_tracks_last_load sample_two_files
           [Load "level2.txt"; Tick sample_dead; Load "level3.txt"; Reset;
            KeyDown Key_Left]
           (sample_game 5 false)).
  left. reflexivity.
Defined.

Lemma step_shows_the_physics_outcome_witness :
  view_offset (step sample_dead (sample_app 3000 800 3200 5 true)) =
  view_offset (step sample_dead (sample_game 5 false)).
Proof.
  destruct (step_shows_the_physics_outcome sample_dead (sample_game 5 false))
    as (_ & _ & _ & _ & _ & _ & H).
  apply H. reflexivity.
Defined.

Lemma constructor_clears_flag_after_first_tick_witness :
  exists s,
    __init__ sample_two_files 800 sample_dead = Some s /\
    _death_action s = false /\ death_popups s = 1 /\
    death_popups (step sample_dead s) = 2.
Proof.
  destruct (constructor_clears_flag_after_first_tick sample_two_files 800
              sample_dead) as [Hnone Hsome].
  destruct (__init__ sample_two_files 800 sample_dead) as [s |] eqn:E.
  - exists s. destruct (Hsome s eq_refl) as (Hd & Hp & _ & _ & _ & _ & _ & H2).
    split; [reflexivity |]. split; [exact Hd |]. split; [exact Hp |].
    apply H2; reflexivity.
  - exfalso. destruct Hnone as [Hnone _].
    specialize (Hnone eq_refl). discriminate Hnone.
Defined.

Lemma item_pickup_ignores_presence_witness :
  let gone := mkObj 9 Coin in
  let r :=
    _handle_player_collide_item sample_collect unit (sample_player 100 5)
                                gone tt (sample_game 5 false) in
  _world (snd r) = sample_world /\
  rest (_player (snd r)) = [9%Z].
Proof.
  cbv zeta.
  pose proof (item_pickup_ignores_presence sample_collect unit
                (sample_player 100 5) (mkObj 9 Coin) tt (sample_game 5 false))
    as H.
  cbv zeta in H. destruct H as (H & _).
  destruct (H eq_refl) as [Hw Hp]. split; [exact Hw |].
  rewrite Hp. reflexivity.
Defined.

Lemma sample_world_in_order : identities_in_order sample_world.
Proof.
  split.
  - apply (bool_decide_unpack _). vm_compute. reflexivity.
  - apply (bool_decide_unpack _). vm_compute. reflexivity.
Defined.

Lemma loaded_identities_in_order_witness :
  exists w,
    load_world sample_two_files initial_builder "level2.txt" = Some w /\
    identities_in_order w.
Proof.
  destruct (loaded_identities_in_order sample_two_files initial_builder
              "level2.txt" (or_introl eq_refl)) as (H & _).
  destruct (load_world sample_two_files initial_builder "level2.txt")
    as [w |] eqn:E.
  - exists w. split; [reflexivity | apply H; reflexivity].
  - exfalso. vm_compute in E. discriminate E.
Defined.

Lemma fireball_removes_exactly_witness :
  let w1 :=
    _world (snd (_handle_mob_collide_block "mystery" unit sample_fireball
                   sample_brick tt (sample_game 5 false))) in
  let w2 :=
    _world (snd (_handle_mob_collide_mob unit sample_fireball sample_cloud tt
                   (sample_game 5 false))) in
  (length (mobs w1) = 2 /\ length (blocks w1) = 1) /\ length (mobs w2) = 1.
Proof.
  cbv zeta.
  pose proof (fireball_removes_exactly "mystery" unit sample_fireball
                sample_cloud sample_brick tt (sample_game 5 false)) as H.
  cbv zeta in H.
  destruct (H sample_world_in_order eq_refl eq_refl) as [Hb Hm].
  destruct (Hb eq_refl) as (H1 & H2 & _). specialize (H2 eq_refl).
  destruct (Hm eq_refl) as (H3 & _); [discriminate |].
  cbn [sample_game _world sample_world mobs blocks length] in H1, H2, H3.
  repeat split; lia.
Defined.

Lemma player_faces_last_key_witness :
  _draw_player (mkShape (-500, 0)%Q (100, 16)%Q) (0, 0)%Q =
    [mkCanvasImage (100 + 0)%Q 16%Q "mario_left" "player"].
Proof.
  apply (player_faces_last_key Key_Left (sample_game 5 false)
           (mkShape (-500, 0)%Q (100, 16)%Q) (0, 0)%Q).
  reflexivity.
Defined.

Lemma images_follow_the_camera_witness :
  Forall (fun i => (0 <= image_x i)%Q /\ (image_x i <= 800)%Q)
         (_draw_player (mkShape (0, 0)%Q (3100, 16)%Q)
            (view_offset (scroll (sample_app 3100 800 3200 5 false)))).
Proof.
  pose proof (images_follow_the_camera (sample_app 3100 800 3200 5 false)
                (mkShape (0, 0)%Q (3100, 16)%Q) true) as H.
  cbv zeta in H. destruct H as (H & _).
  apply H; try reflexivity; discriminate.
Defined.
